(** * Word-game client: control bar and session view

    A shallow embedding of the two React components that carry the
    behaviour of the word-translation game client:

    - [ControlBar]  : [WordGameControlBar] (word-game-control-bar.tsx), the
      start/stop handlers, the language selector and the room-state effect;
    - [SessionView] : [WordGameSessionView] (word-game-session-view.tsx), the
      liveness timeout armed by its [useEffect].

    The hooks of a component are a record, a handler is a statement over
    that record which also logs the calls it makes (state setters,
    [console.error], [performRpc], [setTimeout], ...).  An [async] handler
    is cut at its single [await]: the part before it ends in a [Suspend]
    completion, the part after it is a separate statement run when the
    promise settles, inside the same [try]/[catch]/[finally]. *)

From Stdlib Require Import String List Bool NArith Arith Lia.
From Stdlib Require Import ZArith.
Import ListNotations.
Open Scope string_scope.
Open Scope list_scope.

(* ================================================================= *)
(** ** Control bar *)

Module ControlBar.

(** A remote participant, as far as the handlers look at it. *)
Record Participant := mkParticipant {
  identity : string;
  isAgent : bool
}.

(** The room handle: its connection state (a string at run time) and
    the values of [room.remoteParticipants] in insertion order. *)
Record Room := mkRoom {
  state : string;
  remoteParticipants : list Participant
}.

Record Score := mkScore {
  correct : N;
  total : N
}.

(** The four [useState] cells of the component. *)
Record Hooks := mkHooks {
  isLoading : bool;
  gameStarted : bool;
  selectedLanguage : string;
  score : Score
}.

Record RpcRequest := mkRpc {
  destinationIdentity : string;
  method : string;
  payload : string
}.

(** How the promise of [performRpc] settles. *)
Inductive RpcResult :=
| Resolved (response : string)
| Rejected (error : string).

(** Which handler is parked on an [await]. *)
Inductive Cont := StartCont | StopCont.

(** Calls a statement makes, in program order. *)
Inductive Action :=
| SetIsLoading (b : bool)
| SetGameStarted (b : bool)
| SetSelectedLanguage (v : string)
| SetScore (sc : Score)
| ConsoleError (msg : string) (detail : option string)
| PerformRpc (req : RpcRequest).

(** How a block of statements ends. *)
Inductive Completion :=
| Normal
| Return
| Throw (e : string)
| Suspend (req : RpcRequest) (k : Cont).

Definition Stmt := Hooks -> Completion * Hooks * list Action.

Definition skip : Stmt := fun h => (Normal, h, []).
Definition return_ : Stmt := fun h => (Return, h, []).

Definition seq (p q : Stmt) : Stmt := fun h =>
  let '(c, h1, a1) := p h in
  match c with
  | Normal => let '(c2, h2, a2) := q h1 in (c2, h2, a1 ++ a2)
  | _ => (c, h1, a1)
  end.

Notation "p ;; q" := (seq p q) (at level 61, right associativity).

(** [try { body } catch (e) { handler e } finally { fin }].  A body parked
    on its [await] keeps the frame: neither clause runs yet. *)
Definition try_catch_finally (body : Stmt) (handler : string -> Stmt) (fin : Stmt) : Stmt :=
  fun h =>
    let '(c, h1, a1) := body h in
    match c with
    | Suspend req k => (Suspend req k, h1, a1)
    | Throw e =>
        let '(c2, h2, a2) := handler e h1 in
        let '(c3, h3, a3) := fin h2 in
        (match c3 with Normal => c2 | _ => c3 end, h3, a1 ++ a2 ++ a3)
    | _ =>
        let '(c3, h3, a3) := fin h1 in
        (match c3 with Normal => c | _ => c3 end, h3, a1 ++ a3)
    end.

(** State setters. *)
Definition setIsLoading (b : bool) : Stmt := fun h =>
  (Normal, mkHooks b (gameStarted h) (selectedLanguage h) (score h), [SetIsLoading b]).
Definition setGameStarted (b : bool) : Stmt := fun h =>
  (Normal, mkHooks (isLoading h) b (selectedLanguage h) (score h), [SetGameStarted b]).
Definition setSelectedLanguage (v : string) : Stmt := fun h =>
  (Normal, mkHooks (isLoading h) (gameStarted h) v (score h), [SetSelectedLanguage v]).
Definition setScore (sc : Score) : Stmt := fun h =>
  (Normal, mkHooks (isLoading h) (gameStarted h) (selectedLanguage h) sc, [SetScore sc]).

Definition consoleError (msg : string) (detail : option string) : Stmt := fun h =>
  (Normal, h, [ConsoleError msg detail]).

(** [await room.localParticipant.performRpc(req)]: the call is made and
    the handler parks until the promise settles. *)
Definition await_performRpc (req : RpcRequest) (k : Cont) : Stmt := fun h =>
  (Suspend req k, h, [PerformRpc req]).

(** The [await] when the promise has settled: the value is dropped, a
    rejection is thrown inside the [try]. *)
Definition settled (r : RpcResult) : Stmt := fun h =>
  match r with
  | Resolved _ => (Normal, h, [])
  | Rejected e => (Throw e, h, [])
  end.

Definition LANGUAGES : list (string * string) :=
  [ ("Portuguese", "Portuguese");
    ("Spanish", "Spanish");
    ("French", "French");
    ("Italian", "Italian");
    ("German", "German");
    ("Belarusian", "Belarusian") ].

Definition language_values : list string := map fst LANGUAGES.

Definition zero_score : Score := mkScore 0 0.

(** [useState] initial values. *)
Definition initial_hooks : Hooks := mkHooks false false "Portuguese" zero_score.

(** [Array.from(room.remoteParticipants.values()).find((p) => p.isAgent)] *)
Definition find_agent (room : Room) : option Participant :=
  find isAgent (remoteParticipants room).

(** The effect on [room.state]. *)
Definition roomStateEffect (room : Room) : Stmt :=
  if String.eqb (state room) "disconnected"
  then setGameStarted false ;; setScore zero_score
  else skip.

Definition start_catch (e : string) : Stmt :=
  consoleError "Failed to start game:" (Some e).
Definition stop_catch (e : string) : Stmt :=
  consoleError "Failed to stop game:" (Some e).

(** [handleStartGame] up to its [await].  [rendered] is the render the
    callback closes over: it reads [isLoading] and [selectedLanguage]
    from there, and the participants from the live room. *)
Definition handleStartGame (rendered : Hooks) (room : Room) : Stmt :=
  (if isLoading rendered then return_ else skip) ;;
  setIsLoading true ;;
  try_catch_finally
    (match find_agent room with
     | None => consoleError "No agent found in the room" None ;; return_
     | Some agent =>
         await_performRpc
           (mkRpc (identity agent) "start_game" (selectedLanguage rendered))
           StartCont
     end)
    start_catch
    (setIsLoading false).

(** [handleStartGame] from its [await] on. *)
Definition resumeStartGame (r : RpcResult) : Stmt :=
  try_catch_finally
    (settled r ;; setGameStarted true ;; setScore zero_score)
    start_catch
    (setIsLoading false).

(** [handleStopGame] up to its [await]. *)
Definition handleStopGame (rendered : Hooks) (room : Room) : Stmt :=
  (if isLoading rendered then return_ else skip) ;;
  setIsLoading true ;;
  try_catch_finally
    (match find_agent room with
     | None => consoleError "No agent found in the room" None ;; return_
     | Some agent =>
         await_performRpc (mkRpc (identity agent) "stop_game" "") StopCont
     end)
    stop_catch
    (setIsLoading false).

(** [handleStopGame] from its [await] on. *)
Definition resumeStopGame (r : RpcResult) : Stmt :=
  try_catch_finally
    (settled r ;; setGameStarted false)
    stop_catch
    (setIsLoading false).

Definition resume (k : Cont) : RpcResult -> Stmt :=
  match k with
  | StartCont => resumeStartGame
  | StopCont => resumeStopGame
  end.

(** The handler whose [await] continues as [k]. *)
Definition handler (k : Cont) : Hooks -> Room -> Stmt :=
  match k with
  | StartCont => handleStartGame
  | StopCont => handleStopGame
  end.

(** *** The component in its environment *)

(** A remote call that has been made and has not settled yet. *)
Record Pending := mkPending {
  p_req : RpcRequest;
  p_cont : Cont
}.

Record Sys := mkSys {
  hooks : Hooks;
  room : Room;
  inflight : list Pending
}.

Inductive Event :=
| CallStart
| CallStop
| Settle (i : nat) (r : RpcResult)
| SelectLanguage (v : string)
| RoomChanged (r : Room).

Definition parked (c : Completion) : list Pending :=
  match c with
  | Suspend req k => [mkPending req k]
  | _ => []
  end.

Fixpoint remove_nth {A} (i : nat) (l : list A) : list A :=
  match l, i with
  | [], _ => []
  | _ :: t, O => t
  | x :: t, S j => x :: remove_nth j t
  end.

(** One event of the event loop: a handler is called, a remote call
    settles, a language is chosen in the selector, or the component renders
    with a changed room (participants joined or left, connection state
    moved).  State updates are flushed and the component has re-rendered
    before the next event is delivered, so a handler closes over the
    current hooks.  The room-state effect has the dependency [room.state]:
    it runs when that differs from the previous render. *)
Definition step (ev : Event) (s : Sys) : Sys * list Action :=
  match ev with
  | CallStart =>
      let '(c, h, a) := handleStartGame (hooks s) (room s) (hooks s) in
      (mkSys h (room s) (inflight s ++ parked c), a)
  | CallStop =>
      let '(c, h, a) := handleStopGame (hooks s) (room s) (hooks s) in
      (mkSys h (room s) (inflight s ++ parked c), a)
  | Settle i r =>
      match nth_error (inflight s) i with
      | None => (s, [])
      | Some p =>
          let '(c, h, a) := resume (p_cont p) r (hooks s) in
          (mkSys h (room s) (remove_nth i (inflight s) ++ parked c), a)
      end
  | SelectLanguage v =>
      let '(_, h, a) := setSelectedLanguage v (hooks s) in
      (mkSys h (room s) (inflight s), a)
  | RoomChanged r =>
      let '(_, h, a) :=
        (if String.eqb (state r) (state (room s)) then skip else roomStateEffect r)
          (hooks s) in
      (mkSys h r (inflight s), a)
  end.

Fixpoint run (evs : list Event) (s : Sys) : Sys * list Action :=
  match evs with
  | [] => (s, [])
  | ev :: rest =>
      let '(s1, a1) := step ev s in
      let '(s2, a2) := run rest s1 in
      (s2, a1 ++ a2)
  end.

(** Mount: initial hooks, then the room-state effect runs once. *)
Definition mount (r : Room) : Sys :=
  let '(_, h, _) := roomStateEffect r initial_hooks in
  mkSys h r [].

Inductive reachable : Sys -> Prop :=
| reach_mount : forall r, reachable (mount r)
| reach_step : forall s ev, reachable s -> reachable (fst (step ev s)).

(** The event is the fulfilment of the call a parked [handleStartGame]
    (resp. [handleStopGame]) waits for. *)
Definition completes (k : Cont) (ev : Event) (s : Sys) : bool :=
  match ev with
  | Settle i (Resolved _) =>
      match nth_error (inflight s) i with
      | Some p =>
          match p_cont p, k with
          | StartCont, StartCont | StopCont, StopCont => true
          | _, _ => false
          end
      | None => false
      end
  | _ => false
  end.

(** The event makes the room-state effect run on a disconnected room. *)
Definition room_disconnects (ev : Event) (s : Sys) : bool :=
  match ev with
  | RoomChanged r =>
      negb (String.eqb (state r) (state (room s))) && String.eqb (state r) "disconnected"
  | _ => false
  end.

(** No event of the run completes a start or disconnects the room. *)
Fixpoint before_next_start (evs : list Event) (s : Sys) : bool :=
  match evs with
  | [] => true
  | ev :: rest =>
      negb (completes StartCont ev s) && negb (room_disconnects ev s)
      && before_next_start rest (fst (step ev s))
  end.

(** *** What the rendered controls let through *)

(** START GAME is rendered while [!gameStarted], STOP GAME otherwise, both
    [disabled={isLoading}]; the selector is rendered while [!gameStarted],
    [disabled={isLoading || gameStarted}], with one option per language. *)
Definition offered (ev : Event) (s : Sys) : bool :=
  let h := hooks s in
  match ev with
  | CallStart => negb (gameStarted h) && negb (isLoading h)
  | CallStop => gameStarted h && negb (isLoading h)
  | SelectLanguage v =>
      negb (gameStarted h) && negb (isLoading h || gameStarted h)
      && existsb (String.eqb v) language_values
  | Settle i _ => match nth_error (inflight s) i with Some _ => true | None => false end
  | RoomChanged _ => negb (room_disconnects ev s)
  end.

(** States reached through the rendered controls while the room stays
    connected. *)
Inductive playing : Sys -> Prop :=
| playing_mount : forall r, playing (mount r)
| playing_step : forall s ev,
    playing s -> offered ev s = true -> playing (fst (step ev s)).

Definition is_SetScore (a : Action) : bool :=
  match a with SetScore _ => true | _ => false end.
Definition is_PerformRpc (a : Action) : bool :=
  match a with PerformRpc _ => true | _ => false end.

Definition resets_score (acts : list Action) : bool := existsb is_SetScore acts.
Definition dispatches (acts : list Action) : bool := existsb is_PerformRpc acts.

Definition no_agent_error : Action := ConsoleError "No agent found in the room" None.

(** The promise an [async] handler returns is fulfilled unless the body
    ends in a throw. *)
Definition propagates (c : Completion) : bool :=
  match c with Throw _ => true | _ => false end.

Definition is_SelectLanguage (ev : Event) : bool :=
  match ev with SelectLanguage _ => true | _ => false end.

(** *** Sample rooms *)

Definition sample_agent : Participant := mkParticipant "agent-AJ_x7" true.
Definition sample_room : Room :=
  mkRoom "connected" [mkParticipant "guest-2" false; sample_agent].
Definition agentless_room : Room :=
  mkRoom "connected" [mkParticipant "guest-2" false].

(** *** Invariants of the event loop *)

(** The busy flag counts the calls in flight, and the score never leaves
    zero: [setScore] is only ever called with the zero score. *)
Definition busy_tracks_inflight (s : Sys) : Prop :=
  score (hooks s) = zero_score /\
  ((isLoading (hooks s) = false /\ inflight s = [])
   \/ (isLoading (hooks s) = true /\ exists p, inflight s = [p])).

(** Through the rendered controls, a start is in flight only while the
    game is inactive and a stop only while it is active. *)
Definition call_matches_flag (s : Sys) : Prop :=
  (isLoading (hooks s) = false /\ inflight s = [])
  \/ (isLoading (hooks s) = true /\ gameStarted (hooks s) = false
      /\ exists req, inflight s = [mkPending req StartCont])
  \/ (isLoading (hooks s) = true /\ gameStarted (hooks s) = true
      /\ exists req, inflight s = [mkPending req StopCont]).

End ControlBar.

(* ================================================================= *)
(** ** Session view *)

Module SessionView.

(** [AgentState] is a union of string literals: a string at run time. *)
Definition AgentState := string.

Definition isAgentAvailable (agentState : AgentState) : bool :=
  String.eqb agentState "listening"
  || String.eqb agentState "thinking"
  || String.eqb agentState "speaking".

(** The delay passed to [setTimeout], in milliseconds: 20 seconds. *)
Definition LIVENESS_DELAY : N := 20000.

(** A pending timeout of the browser: its handle, the time it is due and
    the [agentState] its callback closed over. *)
Record Timer := mkTimer {
  t_id : nat;
  t_due : N;
  t_agentState : AgentState
}.

Inductive Action :=
| SetTimeout (id : nat) (delay : N)
| ClearTimeout (id : nat)
| ToastAlert (title : string) (reason : string)
| RoomDisconnect.

(** The component instance: its props and hook values at the last
    render, the cleanup its effect returned (the handle it will clear),
    and the part of the browser it touches (clock and timer table). *)
Record View := mkView {
  mounted : bool;
  sessionStarted : bool;
  agentState : AgentState;
  cleanup : option nat;
  now : N;
  timers : list Timer;
  nextId : nat
}.

(** The callback given to [setTimeout]. *)
Definition onTimeout (agentState : AgentState) : list Action :=
  if negb (isAgentAvailable agentState) then
    let reason :=
      if String.eqb agentState "connecting"
      then "Agent did not join the room. "
      else "Agent connected but did not complete initializing. " in
    [ToastAlert "Session ended" reason; RoomDisconnect]
  else [].

(** The effect body: arms the timeout when the session has started and
    returns the cleanup that clears it. *)
Definition effect (v : View) : View * list Action :=
  if sessionStarted v then
    let id := nextId v in
    (mkView (mounted v) (sessionStarted v) (agentState v) (Some id) (now v)
            (timers v ++ [mkTimer id (now v + LIVENESS_DELAY)%N (agentState v)])
            (S id),
     [SetTimeout id LIVENESS_DELAY])
  else
    (mkView (mounted v) (sessionStarted v) (agentState v) None (now v)
            (timers v) (nextId v),
     []).

(** [clearTimeout(id)]: drops the entry when it is still pending. *)
Definition clearTimeout (id : nat) (ts : list Timer) : list Timer :=
  filter (fun t => negb (Nat.eqb (t_id t) id)) ts.

Definition runCleanup (v : View) : View * list Action :=
  match cleanup v with
  | Some id =>
      (mkView (mounted v) (sessionStarted v) (agentState v) None (now v)
              (clearTimeout id (timers v)) (nextId v),
       [ClearTimeout id])
  | None => (v, [])
  end.

(** A render with the given prop and agent state.  The effect has the
    dependencies [agentState, sessionStarted, room]; [room] is the one
    memoised handle, so it never differs.  When a dependency differs the
    previous cleanup runs, then the effect. *)
Definition rerender (started : bool) (a : AgentState) (v : View) : View * list Action :=
  if Bool.eqb started (sessionStarted v) && String.eqb a (agentState v) then (v, [])
  else
    let '(v1, a1) := runCleanup v in
    let v2 := mkView (mounted v1) started a (cleanup v1) (now v1) (timers v1) (nextId v1) in
    let '(v3, a3) := effect v2 in
    (v3, a1 ++ a3).

Definition is_due (t_now : N) (t : Timer) : bool := N.leb (t_due t) t_now.

(** Time passes: every timeout that falls due is taken off the table and
    its callback runs (all delays are equal, so the table is in due
    order). *)
Definition advance (d : N) (v : View) : View * list Action :=
  let t_now := (now v + d)%N in
  (mkView (mounted v) (sessionStarted v) (agentState v) (cleanup v) t_now
          (filter (fun t => negb (is_due t_now t)) (timers v)) (nextId v),
   flat_map (fun t => onTimeout (t_agentState t)) (filter (is_due t_now) (timers v))).

Inductive Event :=
| SessionStartedProp (b : bool)
| AgentStateChanged (a : AgentState)
| Advance (d : N)
| Unmount.

Definition step (ev : Event) (v : View) : View * list Action :=
  match ev with
  | Advance d => advance d v
  | SessionStartedProp b =>
      if mounted v then rerender b (agentState v) v else (v, [])
  | AgentStateChanged a =>
      if mounted v then rerender (sessionStarted v) a v else (v, [])
  | Unmount =>
      if mounted v then
        let '(v1, a1) := runCleanup v in
        (mkView false (sessionStarted v1) (agentState v1) (cleanup v1) (now v1)
                (timers v1) (nextId v1), a1)
      else (v, [])
  end.

Fixpoint run (evs : list Event) (v : View) : View * list Action :=
  match evs with
  | [] => (v, [])
  | ev :: rest =>
      let '(v1, a1) := step ev v in
      let '(v2, a2) := run rest v1 in
      (v2, a1 ++ a2)
  end.

(** First render at time [t0]; the effect runs once. *)
Definition mount (started : bool) (a : AgentState) (t0 : N) : View :=
  fst (effect (mkView true started a None t0 [] 0)).

Inductive reachable : View -> Prop :=
| reach_mount : forall started a t0, reachable (mount started a t0)
| reach_step : forall v ev, reachable v -> reachable (fst (step ev v)).

Definition is_SetTimeout (a : Action) : bool :=
  match a with SetTimeout _ _ => true | _ => false end.
Definition is_RoomDisconnect (a : Action) : bool :=
  match a with RoomDisconnect => true | _ => false end.

(** How many times a run armed the timeout. *)
Definition arms (acts : list Action) : nat := length (filter is_SetTimeout acts).
Definition disconnects (acts : list Action) : bool := existsb is_RoomDisconnect acts.

Definition total_time (ds : list N) : N := fold_right N.add 0%N ds.

(** The state after a render with changed dependencies when at most the
    timeout of the previous render was pending: that one is cleared and,
    when the session is started, a fresh one is armed. *)
Definition rearmed (started : bool) (a : AgentState) (v : View) : View :=
  if started
  then mkView (mounted v) true a (Some (nextId v)) (now v)
              [mkTimer (nextId v) (now v + LIVENESS_DELAY)%N a] (S (nextId v))
  else mkView (mounted v) false a None (now v) [] (nextId v).

(** The timer table holds at most the one timeout the current render
    armed: it closes over the current agent state, falls due within the
    delay, and exists only while the session is started. *)
Definition timer_tracks_render (v : View) : Prop :=
  (timers v = [] /\ (sessionStarted v = false -> cleanup v = None))
  \/ (exists t,
        timers v = [t]
        /\ cleanup v = Some (t_id t)
        /\ t_agentState t = agentState v
        /\ sessionStarted v = true
        /\ mounted v = true
        /\ (now v < t_due t <= now v + LIVENESS_DELAY)%N).

End SessionView.

(* ================================================================= *)
(** ** What the control bar shows *)

Module ControlBarUI.
Import ControlBar.

(** [accuracy]: 0 when nothing was asked yet, else the rounded percentage.
    [round_percent c t] stands for [Math.round((c / t) * 100)], a binary64
    computation that is kept abstract. *)
Definition accuracy (round_percent : N -> N -> N) (sc : Score) : N :=
  if (0 <? total sc)%N then round_percent (correct sc) (total sc) else 0%N.

(** The score box, rendered while [gameStarted]:
    [{score.correct} / {score.total} ({accuracy}%)]. *)
Definition scoreDisplay (round_percent : N -> N -> N) (h : Hooks) : option (N * N * N) :=
  if gameStarted h
  then Some (correct (score h), total (score h), accuracy round_percent (score h))
  else None.

(** The line [Playing in {selectedLanguage}], rendered with STOP GAME. *)
Definition playingIn (h : Hooks) : option string :=
  if gameStarted h then Some (selectedLanguage h) else None.

(** What a call in flight was sent with: a start carries the language that
    is still selected, a stop carries nothing. *)
Definition pending_matches_selection (s : Sys) : Prop :=
  In (selectedLanguage (hooks s)) language_values
  /\ forall p, In p (inflight s) ->
       match p_cont p with
       | StartCont =>
           method (p_req p) = "start_game"
           /\ payload (p_req p) = selectedLanguage (hooks s)
       | StopCont =>
           method (p_req p) = "stop_game" /\ payload (p_req p) = ""
       end.

(** The request a handler builds for the given agent. *)
Definition request_of (ev : Event) (agent : Participant) (h : Hooks) : RpcRequest :=
  match ev with
  | CallStart => mkRpc (identity agent) "start_game" (selectedLanguage h)
  | _ => mkRpc (identity agent) "stop_game" ""
  end.

End ControlBarUI.

(* ================================================================= *)
(** ** Counting over runs of the session view *)

Module SessionTrace.
Import SessionView.

Definition is_ToastAlert (a : Action) : bool :=
  match a with ToastAlert _ _ => true | _ => false end.

Definition count_disconnects (acts : list Action) : nat :=
  length (filter is_RoomDisconnect acts).
Definition count_toasts (acts : list Action) : nat :=
  length (filter is_ToastAlert acts).

Definition is_session_start (ev : Event) : bool :=
  match ev with SessionStartedProp true => true | _ => false end.

End SessionTrace.

(* ================================================================= *)
(** ** The application shell *)

Module App.

(** The two room events the component listens to. *)
Inductive RoomEvent := MediaDevicesError | Disconnected.

Inductive Action :=
| RoomOn (e : RoomEvent)
| RoomOff (e : RoomEvent)
| SetMicrophoneEnabled (enabled : bool) (preConnectBuffer : bool)
| ExistingOrRefreshConnectionDetails (fn : nat)
| RefreshConnectionDetails (fn : nat)
| RoomConnect (serverUrl : string) (participantToken : string)
| RoomDisconnect
| ToastAlert (title : string) (description : string).

(** One [Promise.all([...]).catch(...)] chain started by the connect
    effect: the run of the effect that started it (whose [aborted] variable
    its handler reads), whether [room.connect] has been called (the details
    arrived), and whether the [Promise.all] has settled. *)
Record Attempt := mkAttempt {
  a_run : nat;
  a_connecting : bool;
  a_settled : bool
}.

(** The component: its two state cells, the dependencies of its effects
    at the last render ([appConfig.isPreConnectBufferEnabled] and the
    identities of the two functions of [useConnectionDetails], as numbers),
    the function the registered [onDisconnected] closes over, the live
    [room.state], one [aborted] variable per run of the connect effect
    (oldest first) with the run whose cleanup is registered, and the
    chains that were started. *)
Record State := mkState {
  mounted : bool;
  sessionStarted : bool;
  audioStarted : bool;
  isPreConnectBufferEnabled : bool;
  refreshConnectionDetails : nat;
  existingOrRefreshConnectionDetails : nat;
  listener : option nat;
  roomState : string;
  aborted : list bool;
  current : option nat;
  attempts : list Attempt
}.

Definition Stmt := State -> State * list Action.

Definition seq (p q : Stmt) : Stmt := fun s =>
  let '(s1, a1) := p s in
  let '(s2, a2) := q s1 in
  (s2, a1 ++ a2).

Notation "p ;; q" := (seq p q) (at level 61, right associativity).

Definition skip : Stmt := fun s => (s, []).
Definition emit (a : Action) : Stmt := fun s => (s, [a]).

Definition setSessionStarted (b : bool) : Stmt := fun s =>
  (mkState (mounted s) b (audioStarted s) (isPreConnectBufferEnabled s)
           (refreshConnectionDetails s) (existingOrRefreshConnectionDetails s)
           (listener s) (roomState s) (aborted s) (current s) (attempts s), []).

Definition setAudioStarted (b : bool) : Stmt := fun s =>
  (mkState (mounted s) (sessionStarted s) b (isPreConnectBufferEnabled s)
           (refreshConnectionDetails s) (existingOrRefreshConnectionDetails s)
           (listener s) (roomState s) (aborted s) (current s) (attempts s), []).

Definition startAudio : Stmt := setAudioStarted true.

(** [onStartGame] of the welcome view. *)
Definition onStartGame : Stmt := setSessionStarted true ;; startAudio.

(** [onDisconnected], closing over the refresh function [fn]. *)
Definition onDisconnected (fn : nat) : Stmt :=
  setSessionStarted false ;; emit (RefreshConnectionDetails fn).

Definition onMediaDevicesError (name message : string) : Stmt :=
  emit (ToastAlert "Encountered an error with your media devices"
                   (name ++ ": " ++ message)%string).

(** The listener effect and its cleanup. *)
Definition listenEffect : Stmt := fun s =>
  (mkState (mounted s) (sessionStarted s) (audioStarted s) (isPreConnectBufferEnabled s)
           (refreshConnectionDetails s) (existingOrRefreshConnectionDetails s)
           (Some (refreshConnectionDetails s)) (roomState s) (aborted s) (current s)
           (attempts s),
   [RoomOn MediaDevicesError; RoomOn Disconnected]).

Definition listenCleanup : Stmt := fun s =>
  (mkState (mounted s) (sessionStarted s) (audioStarted s) (isPreConnectBufferEnabled s)
           (refreshConnectionDetails s) (existingOrRefreshConnectionDetails s)
           None (roomState s) (aborted s) (current s) (attempts s),
   [RoomOff Disconnected; RoomOff MediaDevicesError]).

Fixpoint set_true (i : nat) (l : list bool) : list bool :=
  match l, i with
  | [], _ => []
  | _ :: t, O => true :: t
  | b :: t, S j => b :: set_true j t
  end.

(** The connect effect: a fresh [aborted] variable; when the session is
    started and the room reads disconnected, the microphone is enabled and
    the connection details are asked for, in one [Promise.all]. *)
Definition connectEffect : Stmt := fun s =>
  let run := length (aborted s) in
  let starts := sessionStarted s && String.eqb (roomState s) "disconnected" in
  (mkState (mounted s) (sessionStarted s) (audioStarted s) (isPreConnectBufferEnabled s)
           (refreshConnectionDetails s) (existingOrRefreshConnectionDetails s)
           (listener s) (roomState s) (aborted s ++ [false]) (Some run)
           (if starts then attempts s ++ [mkAttempt run false false] else attempts s),
   if starts
   then [SetMicrophoneEnabled true (isPreConnectBufferEnabled s);
         ExistingOrRefreshConnectionDetails (existingOrRefreshConnectionDetails s)]
   else []).

(** Its cleanup: [aborted = true; room.disconnect()]. *)
Definition connectCleanup : Stmt := fun s =>
  match current s with
  | Some run =>
      (mkState (mounted s) (sessionStarted s) (audioStarted s) (isPreConnectBufferEnabled s)
               (refreshConnectionDetails s) (existingOrRefreshConnectionDetails s)
               (listener s) (roomState s) (set_true run (aborted s)) None (attempts s),
       [RoomDisconnect])
  | None => (s, [])
  end.

(** The dependencies of the two effects as of the last commit. *)
Record Deps := mkDeps {
  d_sessionStarted : bool;
  d_preConnect : bool;
  d_refresh : nat;
  d_details : nat
}.

Definition deps_of (s : State) : Deps :=
  mkDeps (sessionStarted s) (isPreConnectBufferEnabled s)
         (refreshConnectionDetails s) (existingOrRefreshConnectionDetails s).

Definition listen_changed (old : Deps) (s : State) : bool :=
  negb (Nat.eqb (d_refresh old) (refreshConnectionDetails s)).

Definition connect_changed (old : Deps) (s : State) : bool :=
  negb (Bool.eqb (d_sessionStarted old) (sessionStarted s)
        && Bool.eqb (d_preConnect old) (isPreConnectBufferEnabled s)
        && Nat.eqb (d_details old) (existingOrRefreshConnectionDetails s)).

(** Commit after a render: the cleanups of the effects whose dependencies
    changed run first, then those effects, each group in source order. *)
Definition commit (old : Deps) : Stmt := fun s =>
  ((if listen_changed old s then listenCleanup else skip) ;;
   (if connect_changed old s then connectCleanup else skip) ;;
   (if listen_changed old s then listenEffect else skip) ;;
   (if connect_changed old s then connectEffect else skip)) s.

Definition withProps (pre : bool) (refreshFn detailsFn : nat) : Stmt := fun s =>
  (mkState (mounted s) (sessionStarted s) (audioStarted s) pre refreshFn detailsFn
           (listener s) (roomState s) (aborted s) (current s) (attempts s), []).

Definition withRoomState (st : string) : Stmt := fun s =>
  (mkState (mounted s) (sessionStarted s) (audioStarted s) (isPreConnectBufferEnabled s)
           (refreshConnectionDetails s) (existingOrRefreshConnectionDetails s)
           (listener s) st (aborted s) (current s) (attempts s), []).

Definition withAttempts (l : list Attempt) : Stmt := fun s =>
  (mkState (mounted s) (sessionStarted s) (audioStarted s) (isPreConnectBufferEnabled s)
           (refreshConnectionDetails s) (existingOrRefreshConnectionDetails s)
           (listener s) (roomState s) (aborted s) (current s) l, []).

Definition unmounted : Stmt := fun s =>
  (mkState false (sessionStarted s) (audioStarted s) (isPreConnectBufferEnabled s)
           (refreshConnectionDetails s) (existingOrRefreshConnectionDetails s)
           (listener s) (roomState s) (aborted s) (current s) (attempts s), []).

Fixpoint replace_nth {A} (i : nat) (x : A) (l : list A) : list A :=
  match l, i with
  | [], _ => []
  | _ :: t, O => x :: t
  | y :: t, S j => y :: replace_nth j x t
  end.

(** The [.catch] handler of a chain started by run [run]. *)
Definition onConnectError (run : nat) (name message : string) : Stmt := fun s =>
  if nth run (aborted s) false then (s, [])
  else (s, [ToastAlert "There was an error connecting to the agent"
                       (name ++ ": " ++ message)%string]).

Inductive Event :=
| OnStartGame
| StartAudio
| Emitted (e : RoomEvent) (name message : string)
| RoomState (st : string)
| Render (pre : bool) (refreshFn detailsFn : nat)
| DetailsResolved (i : nat) (serverUrl participantToken : string)
| AttemptRejected (i : nat) (name message : string)
| AttemptFulfilled (i : nat)
| Unmount.

(** A promise of a chain settles.  The details arriving call
    [room.connect] (no look at [aborted]); the first rejection of a part
    settles the [Promise.all] and runs the [.catch] handler; the chain is
    fulfilled once [room.connect] has been called and resolved. *)
Definition settle (ev : Event) (s : State) : State * list Action :=
  match ev with
  | DetailsResolved i url token =>
      match nth_error (attempts s) i with
      | Some a =>
          if a_connecting a then (s, [])
          else (withAttempts (replace_nth i (mkAttempt (a_run a) true (a_settled a))
                                          (attempts s)) ;;
                emit (RoomConnect url token)) s
      | None => (s, [])
      end
  | AttemptRejected i name message =>
      match nth_error (attempts s) i with
      | Some a =>
          if a_settled a then (s, [])
          else (withAttempts (replace_nth i (mkAttempt (a_run a) (a_connecting a) true)
                                          (attempts s)) ;;
                onConnectError (a_run a) name message) s
      | None => (s, [])
      end
  | AttemptFulfilled i =>
      match nth_error (attempts s) i with
      | Some a =>
          if a_connecting a && negb (a_settled a)
          then withAttempts (replace_nth i (mkAttempt (a_run a) true true) (attempts s)) s
          else (s, [])
      | None => (s, [])
      end
  | _ => (s, [])
  end.

(** One event of the event loop.  A handler that sets state is followed by
    the render and commit it causes.  [Emitted] is the room emitting one of
    its two events (the strings are the error's name and message, read by
    the media-device handler only); it reaches a handler only while the
    listeners are registered.  [RoomState] is the room's own [state] field
    moving; nothing renders on it. *)
Definition step (ev : Event) (s : State) : State * list Action :=
  match ev with
  | DetailsResolved _ _ _ | AttemptRejected _ _ _ | AttemptFulfilled _ => settle ev s
  | RoomState st => withRoomState st s
  | _ =>
      if mounted s then
        match ev with
        | OnStartGame => (onStartGame ;; commit (deps_of s)) s
        | StartAudio => (startAudio ;; commit (deps_of s)) s
        | Emitted Disconnected _ _ =>
            match listener s with
            | Some fn => (onDisconnected fn ;; commit (deps_of s)) s
            | None => (s, [])
            end
        | Emitted MediaDevicesError name message =>
            match listener s with
            | Some _ => onMediaDevicesError name message s
            | None => (s, [])
            end
        | Render pre refreshFn detailsFn =>
            (withProps pre refreshFn detailsFn ;; commit (deps_of s)) s
        | Unmount => (listenCleanup ;; connectCleanup ;; unmounted) s
        | _ => (s, [])
        end
      else (s, [])
  end.

Fixpoint run (evs : list Event) (s : State) : State * list Action :=
  match evs with
  | [] => (s, [])
  | ev :: rest =>
      let '(s1, a1) := step ev s in
      let '(s2, a2) := run rest s1 in
      (s2, a1 ++ a2)
  end.

(** First render: [useState(false)] twice, then both effects. *)
Definition mount (pre : bool) (refreshFn detailsFn : nat) (st : string) : State :=
  fst ((listenEffect ;; connectEffect)
         (mkState true false false pre refreshFn detailsFn None st [] None [])).

Inductive reachable : State -> Prop :=
| reach_mount : forall pre refreshFn detailsFn st,
    reachable (mount pre refreshFn detailsFn st)
| reach_step : forall s ev, reachable s -> reachable (fst (step ev s)).

(** The state a handler leaves before the commit, and the state and log
    of the commit, written out. *)
Definition rendered (started audio pre : bool) (refreshFn detailsFn : nat) (s : State) : State :=
  mkState (mounted s) started audio pre refreshFn detailsFn
          (listener s) (roomState s) (aborted s) (current s) (attempts s).

Definition connect_starts (s : State) : bool :=
  sessionStarted s && String.eqb (roomState s) "disconnected".

Definition committed (old : Deps) (s : State) : State :=
  let cc := connect_changed old s in
  mkState (mounted s) (sessionStarted s) (audioStarted s) (isPreConnectBufferEnabled s)
          (refreshConnectionDetails s) (existingOrRefreshConnectionDetails s)
          (if listen_changed old s then Some (refreshConnectionDetails s) else listener s)
          (roomState s)
          (if cc
           then match current s with
                | Some run => set_true run (aborted s)
                | None => aborted s
                end ++ [false]
           else aborted s)
          (if cc then Some (length (aborted s)) else current s)
          (if cc && connect_starts s
           then attempts s ++ [mkAttempt (length (aborted s)) false false]
           else attempts s).

Definition commit_log (old : Deps) (s : State) : list Action :=
  (if listen_changed old s then [RoomOff Disconnected; RoomOff MediaDevicesError] else [])
  ++ (if connect_changed old s
      then match current s with Some _ => [RoomDisconnect] | None => [] end
      else [])
  ++ (if listen_changed old s then [RoomOn MediaDevicesError; RoomOn Disconnected] else [])
  ++ (if connect_changed old s && connect_starts s
      then [SetMicrophoneEnabled true (isPreConnectBufferEnabled s);
            ExistingOrRefreshConnectionDetails (existingOrRefreshConnectionDetails s)]
      else []).

(** The four handlers that render, written out: the state they set, then
    the commit. *)
Definition handled (ev : Event) (s : State) : option (State * list Action) :=
  match ev with
  | OnStartGame =>
      Some (rendered true true (isPreConnectBufferEnabled s) (refreshConnectionDetails s)
                     (existingOrRefreshConnectionDetails s) s, [])
  | StartAudio =>
      Some (rendered (sessionStarted s) true (isPreConnectBufferEnabled s)
                     (refreshConnectionDetails s) (existingOrRefreshConnectionDetails s) s, [])
  | Emitted Disconnected _ _ =>
      Some (rendered false (audioStarted s) (isPreConnectBufferEnabled s)
                     (refreshConnectionDetails s) (existingOrRefreshConnectionDetails s) s,
            [RefreshConnectionDetails (refreshConnectionDetails s)])
  | Render pre refreshFn detailsFn =>
      Some (rendered (sessionStarted s) (audioStarted s) pre refreshFn detailsFn s, [])
  | _ => None
  end.

(** *** What is rendered *)

(** The welcome view gets [disabled={sessionStarted}], the session view
    [disabled={!sessionStarted}] and [sessionStarted]; the Enable Audio
    button is rendered under [!audioStarted && sessionStarted]. *)
Definition welcomeDisabled (s : State) : bool := sessionStarted s.
Definition sessionViewDisabled (s : State) : bool := negb (sessionStarted s).
Definition enableAudioShown (s : State) : bool :=
  negb (audioStarted s) && sessionStarted s.

Definition is_RoomDisconnect (a : Action) : bool :=
  match a with RoomDisconnect => true | _ => false end.
Definition is_ToastAlert (a : Action) : bool :=
  match a with ToastAlert _ _ => true | _ => false end.

Definition connect_error_toast (name message : string) : Action :=
  ToastAlert "There was an error connecting to the agent" (name ++ ": " ++ message)%string.

(** *** Invariants *)

(** The runs of the connect effect: an [aborted] variable is still false
    exactly for the run whose cleanup is registered, that run is the latest
    one and exists only while mounted; every chain belongs to a run, and no
    two chains to the same run. *)
Definition runs_consistent (s : State) : Prop :=
  (forall j, j < length (aborted s) ->
     (nth j (aborted s) false = false <-> current s = Some j))
  /\ (forall run, current s = Some run ->
        S run = length (aborted s) /\ mounted s = true)
  /\ (forall a, In a (attempts s) -> a_run a < length (aborted s))
  /\ NoDup (map a_run (attempts s)).

(** Between events: while mounted there is a current run and the
    listeners close over the current refresh function; a chain of the
    current run exists only while the session is started; and audio has
    been started whenever the session has. *)
Definition settled_state (s : State) : Prop :=
  runs_consistent s
  /\ (mounted s = true -> current s <> None)
  /\ (mounted s = true -> listener s = Some (refreshConnectionDetails s))
  /\ (forall a, In a (attempts s) -> current s = Some (a_run a) -> sessionStarted s = true)
  /\ (sessionStarted s = true -> audioStarted s = true).

End App.

(* ================================================================= *)
(** ** The application shell with its session view *)

Module Page.

(** [WordGameApp] renders [WordGameSessionView] with
    [sessionStarted={sessionStarted}]: the two components, each with its
    own log. *)
Record State := mkPage {
  app : App.State;
  view : SessionView.View
}.

Definition Log : Type := list App.Action * list SessionView.Action.

Inductive Event :=
| AppEvent (e : App.Event)
| AgentStateChanged (a : SessionView.AgentState)
| Advance (d : N).

(** What an event of the shell means for the child: it is unmounted with
    its parent, and otherwise rendered with the parent's [sessionStarted]
    (a render with unchanged dependencies does nothing). *)
Definition child_event (e : App.Event) (a' : App.State) : SessionView.Event :=
  match e with
  | App.Unmount => SessionView.Unmount
  | _ => SessionView.SessionStartedProp (App.sessionStarted a')
  end.

Definition step (ev : Event) (p : State) : State * Log :=
  match ev with
  | AppEvent e =>
      let '(a', acts) := App.step e (app p) in
      let '(v', vacts) := SessionView.step (child_event e a') (view p) in
      (mkPage a' v', (acts, vacts))
  | AgentStateChanged a =>
      let '(v', vacts) := SessionView.step (SessionView.AgentStateChanged a) (view p) in
      (mkPage (app p) v', ([], vacts))
  | Advance d =>
      let '(v', vacts) := SessionView.step (SessionView.Advance d) (view p) in
      (mkPage (app p) v', ([], vacts))
  end.

Fixpoint run (evs : list Event) (p : State) : State * Log :=
  match evs with
  | [] => (p, ([], []))
  | ev :: rest =>
      let '(p1, (a1, v1)) := step ev p in
      let '(p2, (a2, v2)) := run rest p1 in
      (p2, (a1 ++ a2, v1 ++ v2))
  end.

(** First render of both, at time [t0], with the agent state [a]. *)
Definition mount (pre : bool) (refreshFn detailsFn : nat) (st : string)
    (a : SessionView.AgentState) (t0 : N) : State :=
  mkPage (App.mount pre refreshFn detailsFn st) (SessionView.mount false a t0).

Inductive reachable : State -> Prop :=
| reach_mount : forall pre refreshFn detailsFn st a t0,
    reachable (mount pre refreshFn detailsFn st a t0)
| reach_step : forall p ev, reachable p -> reachable (fst (step ev p)).

(** The child is in step with its parent. *)
Definition in_step (p : State) : Prop :=
  App.reachable (app p)
  /\ SessionView.reachable (view p)
  /\ SessionView.mounted (view p) = App.mounted (app p)
  /\ SessionView.sessionStarted (view p) = App.sessionStarted (app p).

Definition is_AppEvent (ev : Event) : bool :=
  match ev with AppEvent _ => true | _ => false end.

End Page.

(* ================================================================= *)
(** ** The file verification script *)

Module VerifyScript.

(** What [[ -f path ]] and [[ -d path ]] look at: the kind of the file a
    path leads to (symbolic links followed), if any. *)
Inductive Kind := RegularFile | Directory | OtherKind.
Definition FileSystem := string -> option Kind.

Definition is_file (fs : FileSystem) (path : string) : bool :=
  match fs path with Some RegularFile => true | _ => false end.
Definition is_directory (fs : FileSystem) (path : string) : bool :=
  match fs path with Some Directory => true | _ => false end.

(** What the script writes to standard output, one entry per [echo]
    command (colour codes left out).  [Text s] is a plain [echo] of the
    literal [s].  The result of a check is printed with [echo -e] on a text
    that holds the path, so backslash escapes in the path are expanded: for
    a path without backslash and without newline that is the one line
    [Found path] or [Missing path] (and the like for a directory); for any
    other path the entry [Raw] keeps what [echo -e] was called with, and
    what is written is its expansion, which can be several lines or a cut
    line. *)
Inductive Line :=
| Text (s : string)
| Found (path : string)
| FoundDirectory (path : string)
| Missing (path : string)
| MissingDirectory (path : string)
| Summary (passed : Z) (total : Z)
| AllVerified
| SomeMissing
| Raw (found : bool) (directory : bool) (path : string).

(** A path that [echo -e] prints as it is, on one line: no backslash and
    no newline in it. *)
Definition plain (path : string) : bool :=
  forallb (fun c => negb (Ascii.eqb c (Ascii.ascii_of_nat 92)
                          || Ascii.eqb c (Ascii.ascii_of_nat 10)))
          (list_ascii_of_string path).

(** The line of a check on a plain path. *)
Definition line_of (found directory : bool) (path : string) : Line :=
  match directory, found with
  | false, true => Found path
  | false, false => Missing path
  | true, true => FoundDirectory path
  | true, false => MissingDirectory path
  end.

(** [echo -e] on the result text of a check. *)
Definition report (found directory : bool) (path : string) : Line :=
  if plain path then line_of found directory path else Raw found directory path.

(** Shell arithmetic is 64-bit signed. *)
Definition wrap64 (z : Z) : Z :=
  ((z + 2 ^ 63) mod 2 ^ 64 - 2 ^ 63)%Z.

Record Shell := mkShell {
  total : Z;
  passed : Z;
  out : list Line
}.

Definition echo (l : Line) (sh : Shell) : Shell :=
  mkShell (total sh) (passed sh) (out sh ++ [l]).

Definition check_file (fs : FileSystem) (path : string) (sh : Shell) : Shell :=
  let sh1 := mkShell (wrap64 (total sh + 1)) (passed sh) (out sh) in
  if is_file fs path
  then mkShell (total sh1) (wrap64 (passed sh1 + 1))
               (out sh1 ++ [report true false path])
  else echo (report false false path) sh1.

Definition check_directory (fs : FileSystem) (path : string) (sh : Shell) : Shell :=
  let sh1 := mkShell (wrap64 (total sh + 1)) (passed sh) (out sh) in
  if is_directory fs path
  then mkShell (total sh1) (wrap64 (passed sh1 + 1))
               (out sh1 ++ [report true true path])
  else echo (report false true path) sh1.

Inductive Command :=
| Echo (s : string)
| CheckFile (path : string)
| CheckDirectory (path : string).

Definition exec (fs : FileSystem) (c : Command) (sh : Shell) : Shell :=
  match c with
  | Echo s => echo (Text s) sh
  | CheckFile path => check_file fs path sh
  | CheckDirectory path => check_directory fs path sh
  end.

Definition exec_all (fs : FileSystem) (cs : list Command) (sh : Shell) : Shell :=
  fold_left (fun sh c => exec fs c sh) cs sh.

Definition rule : string := "===================================".

(** The body of the script, from the banner to the last check. *)
Definition checks : list Command :=
  [ Echo rule; Echo "Word Game Implementation Verification"; Echo rule; Echo "";
    Echo "Backend Files:"; Echo "---";
    CheckFile "services/agent/src/agent.py";
    CheckFile "services/agent/src/word_game_agent.py";
    CheckFile "services/agent/src/supabase_client.py";
    CheckFile "services/agent/pyproject.toml";
    CheckFile "services/agent/supabase/schema.sql";
    CheckFile "services/agent/supabase/README.md";
    Echo ""; Echo "Frontend Files:"; Echo "---";
    CheckFile "services/web/app/(app)/word-game/page.tsx";
    CheckFile "services/web/components/word-game-app.tsx";
    CheckFile "services/web/components/word-game-session-view.tsx";
    CheckFile "services/web/components/word-game-welcome.tsx";
    CheckFile "services/web/components/livekit/agent-control-bar/word-game-control-bar.tsx";
    Echo ""; Echo "Configuration Files:"; Echo "---";
    CheckFile ".env.example";
    CheckFile "CLAUDE.md";
    CheckFile "WORD-GAME-TESTING.md";
    Echo ""; Echo "Docker Files:"; Echo "---";
    CheckFile "docker-compose.yml";
    CheckFile "docker-compose.dev.yml" ].

(** The whole script: the checks, the summary, and the exit status. *)
Definition main (fs : FileSystem) : Z * Shell :=
  let sh := exec_all fs checks (mkShell 0 0 []) in
  let sh := echo (Text "") sh in
  let sh := echo (Text rule) sh in
  let sh := echo (Summary (passed sh) (total sh)) sh in
  let sh := echo (Text rule) sh in
  if (passed sh =? total sh)%Z
  then (0%Z, echo AllVerified sh)
  else (1%Z, echo SomeMissing sh).

(** The paths a command list checks, and the result line of each. *)
Definition checked_path (c : Command) : option (string * bool) :=
  match c with
  | Echo _ => None
  | CheckFile path => Some (path, false)
  | CheckDirectory path => Some (path, true)
  end.

Fixpoint checked_paths (cs : list Command) : list (string * bool) :=
  match cs with
  | [] => []
  | c :: rest =>
      match checked_path c with
      | Some p => p :: checked_paths rest
      | None => checked_paths rest
      end
  end.

Definition present (fs : FileSystem) (p : string * bool) : bool :=
  if snd p then is_directory fs (fst p) else is_file fs (fst p).

Definition result_line (fs : FileSystem) (p : string * bool) : Line :=
  report (present fs p) (snd p) (fst p).

Definition is_result (l : Line) : bool :=
  match l with
  | Found _ | FoundDirectory _ | Missing _ | MissingDirectory _ | Raw _ _ _ => true
  | _ => false
  end.

(** A file system holding exactly the listed regular files. *)
Definition files_only (paths : list string) : FileSystem :=
  fun path => if existsb (String.eqb path) paths then Some RegularFile else None.

End VerifyScript.

(* ================================================================= *)
(** ** Properties of the control bar *)

Section ControlBarFacts.
Import ControlBar.

(** *** The handlers, path by path *)

Lemma handleStartGame_busy rendered room h :
  isLoading rendered = true ->
  handleStartGame rendered room h = (Return, h, []).
Proof.
  intros Hb. unfold handleStartGame, seq. rewrite Hb. reflexivity.
Qed.

Lemma handleStopGame_busy rendered room h :
  isLoading rendered = true ->
  handleStopGame rendered room h = (Return, h, []).
Proof.
  intros Hb. unfold handleStopGame, seq. rewrite Hb. reflexivity.
Qed.

Lemma handleStartGame_no_agent rendered room h :
  isLoading rendered = false ->
  find_agent room = None ->
  handleStartGame rendered room h =
    (Return,
     mkHooks false (gameStarted h) (selectedLanguage h) (score h),
     [SetIsLoading true; no_agent_error; SetIsLoading false]).
Proof.
  intros Hb Ha. unfold handleStartGame, seq, try_catch_finally.
  rewrite Hb, Ha. reflexivity.
Qed.

Lemma handleStopGame_no_agent rendered room h :
  isLoading rendered = false ->
  find_agent room = None ->
  handleStopGame rendered room h =
    (Return,
     mkHooks false (gameStarted h) (selectedLanguage h) (score h),
     [SetIsLoading true; no_agent_error; SetIsLoading false]).
Proof.
  intros Hb Ha. unfold handleStopGame, seq, try_catch_finally.
  rewrite Hb, Ha. reflexivity.
Qed.

Lemma handleStartGame_dispatch rendered room agent h :
  isLoading rendered = false ->
  find_agent room = Some agent ->
  handleStartGame rendered room h =
    (Suspend (mkRpc (identity agent) "start_game" (selectedLanguage rendered)) StartCont,
     mkHooks true (gameStarted h) (selectedLanguage h) (score h),
     [SetIsLoading true;
      PerformRpc (mkRpc (identity agent) "start_game" (selectedLanguage rendered))]).
Proof.
  intros Hb Ha. unfold handleStartGame, seq, try_catch_finally.
  rewrite Hb, Ha. reflexivity.
Qed.

Lemma handleStopGame_dispatch rendered room agent h :
  isLoading rendered = false ->
  find_agent room = Some agent ->
  handleStopGame rendered room h =
    (Suspend (mkRpc (identity agent) "stop_game" "") StopCont,
     mkHooks true (gameStarted h) (selectedLanguage h) (score h),
     [SetIsLoading true; PerformRpc (mkRpc (identity agent) "stop_game" "")]).
Proof.
  intros Hb Ha. unfold handleStopGame, seq, try_catch_finally.
  rewrite Hb, Ha. reflexivity.
Qed.

Lemma resumeStartGame_resolved resp h :
  resumeStartGame (Resolved resp) h =
    (Normal,
     mkHooks false true (selectedLanguage h) zero_score,
     [SetGameStarted true; SetScore zero_score; SetIsLoading false]).
Proof. reflexivity. Qed.

Lemma resumeStartGame_rejected e h :
  resumeStartGame (Rejected e) h =
    (Normal,
     mkHooks false (gameStarted h) (selectedLanguage h) (score h),
     [ConsoleError "Failed to start game:" (Some e); SetIsLoading false]).
Proof. reflexivity. Qed.

Lemma resumeStopGame_resolved resp h :
  resumeStopGame (Resolved resp) h =
    (Normal,
     mkHooks false false (selectedLanguage h) (score h),
     [SetGameStarted false; SetIsLoading false]).
Proof. reflexivity. Qed.

Lemma resumeStopGame_rejected e h :
  resumeStopGame (Rejected e) h =
    (Normal,
     mkHooks false (gameStarted h) (selectedLanguage h) (score h),
     [ConsoleError "Failed to stop game:" (Some e); SetIsLoading false]).
Proof. reflexivity. Qed.

Lemma hooks_not_loading h :
  isLoading h = false ->
  mkHooks false (gameStarted h) (selectedLanguage h) (score h) = h.
Proof. destruct h; simpl; intros ->; reflexivity. Qed.

Lemma roomStateEffect_cases r h :
  roomStateEffect r h = (Normal, h, [])
  \/ roomStateEffect r h =
       (Normal, mkHooks (isLoading h) false (selectedLanguage h) zero_score,
        [SetGameStarted false; SetScore zero_score]).
Proof.
  unfold roomStateEffect. destruct (String.eqb (state r) "disconnected");
    [right | left]; reflexivity.
Qed.

Lemma nth_error_snoc_length {A} (l : list A) (x : A) :
  nth_error (l ++ [x]) (length l) = Some x.
Proof. induction l; simpl; auto. Qed.

Lemma remove_nth_snoc_length {A} (l : list A) (x : A) :
  remove_nth (length l) (l ++ [x]) = l.
Proof. induction l; simpl; [reflexivity | f_equal; assumption]. Qed.

(** *** Invariants of the event loop *)

Lemma mount_busy_tracks_inflight r : busy_tracks_inflight (mount r).
Proof.
  unfold busy_tracks_inflight, mount.
  destruct (roomStateEffect_cases r initial_hooks) as [E | E]; rewrite E; simpl;
    (split; [reflexivity | left; split; reflexivity]).
Qed.

Lemma step_busy_tracks_inflight ev s :
  busy_tracks_inflight s -> busy_tracks_inflight (fst (step ev s)).
Proof.
  intros [Hsc Hb]. destruct ev as [ | | i r | v | r]; simpl.
  - (* start *)
    destruct Hb as [[Hl Hi] | [Hl [p Hi]]].
    + destruct (find_agent (room s)) as [agent | ] eqn:Ha.
      * rewrite (handleStartGame_dispatch _ _ agent _ Hl Ha). simpl.
        split; [assumption | right; split; [reflexivity | rewrite Hi; eexists; reflexivity]].
      * rewrite (handleStartGame_no_agent _ _ _ Hl Ha). simpl.
        split; [assumption | left; split; [reflexivity | rewrite Hi; reflexivity]].
    + rewrite (handleStartGame_busy _ _ _ Hl). simpl. rewrite app_nil_r.
      split; [assumption | right; eauto].
  - (* stop *)
    destruct Hb as [[Hl Hi] | [Hl [p Hi]]].
    + destruct (find_agent (room s)) as [agent | ] eqn:Ha.
      * rewrite (handleStopGame_dispatch _ _ agent _ Hl Ha). simpl.
        split; [assumption | right; split; [reflexivity | rewrite Hi; eexists; reflexivity]].
      * rewrite (handleStopGame_no_agent _ _ _ Hl Ha). simpl.
        split; [assumption | left; split; [reflexivity | rewrite Hi; reflexivity]].
    + rewrite (handleStopGame_busy _ _ _ Hl). simpl. rewrite app_nil_r.
      split; [assumption | right; eauto].
  - (* a call settles *)
    destruct Hb as [[Hl Hi] | [Hl [p Hi]]]; rewrite Hi.
    + destruct i; simpl; (split; [assumption | left; auto]).
    + destruct i as [ | i]; simpl.
      * destruct p as [req [ | ]], r as [resp | e]; simpl;
          (split; [assumption || reflexivity | left; split; reflexivity]).
      * destruct i; simpl; (split; [assumption | right; eauto]).
  - (* language *)
    split; [assumption | exact Hb].
  - (* room *)
    destruct (String.eqb (state r) (state (room s))); simpl.
    + split; [assumption | exact Hb].
    + destruct (roomStateEffect_cases r (hooks s)) as [E | E]; rewrite E; simpl;
        (split; [assumption || reflexivity | exact Hb]).
Qed.

Lemma reachable_busy_tracks_inflight s :
  reachable s -> busy_tracks_inflight s.
Proof.
  induction 1 as [r | s ev _ IH].
  - apply mount_busy_tracks_inflight.
  - apply step_busy_tracks_inflight, IH.
Qed.

Lemma mount_call_matches_flag r : call_matches_flag (mount r).
Proof.
  unfold call_matches_flag, mount.
  destruct (roomStateEffect_cases r initial_hooks) as [E | E]; rewrite E; simpl;
    left; split; reflexivity.
Qed.

Lemma offered_room_keeps_hooks r s :
  offered (RoomChanged r) s = true ->
  step (RoomChanged r) s = (mkSys (hooks s) r (inflight s), []).
Proof.
  unfold offered, room_disconnects, step, roomStateEffect.
  destruct (String.eqb (state r) (state (room s))); simpl.
  - reflexivity.
  - destruct (String.eqb (state r) "disconnected"); simpl; [discriminate | reflexivity].
Qed.

Lemma step_call_matches_flag ev s :
  call_matches_flag s -> offered ev s = true ->
  call_matches_flag (fst (step ev s)).
Proof.
  intros Hinv Hoff. destruct ev as [ | | i r | v | r].
  - (* start *)
    simpl in Hoff. apply andb_true_iff in Hoff as [Hg Hl].
    apply negb_true_iff in Hg, Hl.
    destruct Hinv as [[_ Hi] | [[Hl' _] | [Hl' _]]]; try congruence.
    simpl. destruct (find_agent (room s)) as [agent | ] eqn:Ha.
    + rewrite (handleStartGame_dispatch _ _ agent _ Hl Ha). simpl.
      right; left. repeat split; try assumption. rewrite Hi. eexists; reflexivity.
    + rewrite (handleStartGame_no_agent _ _ _ Hl Ha). simpl.
      left. split; [reflexivity | rewrite Hi; reflexivity].
  - (* stop *)
    simpl in Hoff. apply andb_true_iff in Hoff as [Hg Hl].
    apply negb_true_iff in Hl.
    destruct Hinv as [[_ Hi] | [[Hl' _] | [Hl' _]]]; try congruence.
    simpl. destruct (find_agent (room s)) as [agent | ] eqn:Ha.
    + rewrite (handleStopGame_dispatch _ _ agent _ Hl Ha). simpl.
      right; right. repeat split; try assumption. rewrite Hi. eexists; reflexivity.
    + rewrite (handleStopGame_no_agent _ _ _ Hl Ha). simpl.
      left. split; [reflexivity | rewrite Hi; reflexivity].
  - (* a call settles *)
    simpl in Hoff. simpl.
    destruct Hinv as [[_ Hi] | [(Hl & Hg & req & Hi) | (Hl & Hg & req & Hi)]];
      rewrite Hi in *.
    + destruct i; discriminate.
    + destruct i as [ | i]; [ | destruct i; discriminate].
      destruct r; simpl; left; split; reflexivity.
    + destruct i as [ | i]; [ | destruct i; discriminate].
      destruct r; simpl; left; split; reflexivity.
  - (* language *)
    exact Hinv.
  - (* room *)
    rewrite (offered_room_keeps_hooks _ _ Hoff). exact Hinv.
Qed.

Lemma playing_call_matches_flag s : playing s -> call_matches_flag s.
Proof.
  induction 1 as [r | s ev _ IH Hoff].
  - apply mount_call_matches_flag.
  - apply step_call_matches_flag; assumption.
Qed.

Lemma playing_reachable s : playing s -> reachable s.
Proof.
  induction 1 as [r | s ev _ IH _]; [apply reach_mount | apply reach_step, IH].
Qed.

End ControlBarFacts.

Section ControlBarClaims.
Import ControlBar.

Lemma step_start_busy s :
  isLoading (hooks s) = true -> step CallStart s = (s, []).
Proof.
  intros Hl. simpl. rewrite (handleStartGame_busy _ _ _ Hl).
  destruct s; simpl. rewrite app_nil_r. reflexivity.
Qed.

Lemma step_stop_busy s :
  isLoading (hooks s) = true -> step CallStop s = (s, []).
Proof.
  intros Hl. simpl. rewrite (handleStopGame_busy _ _ _ Hl).
  destruct s; simpl. rewrite app_nil_r. reflexivity.
Qed.

Lemma step_start_no_agent s :
  isLoading (hooks s) = false -> find_agent (room s) = None ->
  step CallStart s = (s, [SetIsLoading true; no_agent_error; SetIsLoading false]).
Proof.
  intros Hl Ha. simpl. rewrite (handleStartGame_no_agent _ _ _ Hl Ha).
  rewrite (hooks_not_loading _ Hl). destruct s; simpl. rewrite app_nil_r. reflexivity.
Qed.

Lemma step_stop_no_agent s :
  isLoading (hooks s) = false -> find_agent (room s) = None ->
  step CallStop s = (s, [SetIsLoading true; no_agent_error; SetIsLoading false]).
Proof.
  intros Hl Ha. simpl. rewrite (handleStopGame_no_agent _ _ _ Hl Ha).
  rewrite (hooks_not_loading _ Hl). destruct s; simpl. rewrite app_nil_r. reflexivity.
Qed.

(** C1.  While a start or stop call is in flight (busy flag set), a
    further [startGame()] or [stopGame()] returns at once: the state
    (busy flag, active flag, language, score, calls in flight) is the
    same and nothing is logged, so no remote call is dispatched.  In
    every reachable state at most one start/stop call is in flight. *)
Theorem busy_call_rejected_one_in_flight :
  forall s : Sys,
    (isLoading (hooks s) = true ->
       step CallStart s = (s, []) /\ step CallStop s = (s, []))
    /\ (reachable s -> length (inflight s) <= 1).
Proof.
  intros s. split.
  - intros Hl. split; [apply step_start_busy | apply step_stop_busy]; assumption.
  - intros Hr. destruct (reachable_busy_tracks_inflight s Hr) as [_ [[_ Hi] | [_ [p Hi]]]];
      rewrite Hi; simpl; lia.
Qed.

Lemma busy_call_rejected_one_in_flight_witness :
  let s := fst (step CallStart (mount sample_room)) in
  (step CallStart s = (s, []) /\ step CallStop s = (s, []))
  /\ length (inflight s) <= 1.
Proof.
  intros s.
  destruct (busy_call_rejected_one_in_flight s) as [Hbusy Hone].
  split.
  - apply Hbusy. reflexivity.
  - apply Hone. apply reach_step, reach_mount.
Defined.

(** C2, as stated, fails: an agent that leaves while a call is in flight
    leaves a room without agent in which [startGame()] and [stopGame()]
    return at the busy guard and never report the missing agent. *)
Lemma missing_agent_not_reported_while_busy :
  let s := fst (run [CallStart; RoomChanged agentless_room] (mount sample_room)) in
  find_agent (room s) = None
  /\ isLoading (hooks s) = true
  /\ snd (step CallStart s) = []
  /\ snd (step CallStop s) = []
  /\ ~ In no_agent_error (snd (step CallStart s))
  /\ ~ In no_agent_error (snd (step CallStop s)).
Proof.
  vm_compute. repeat split; try reflexivity; intros [].
Qed.

(** C2, amended.  In a room without agent participant, [startGame()] and
    [stopGame()] dispatch no remote call and leave the whole state
    unchanged (active flag, language, score, busy flag); when no call is
    in flight they report the missing agent; when one is, they return at
    the busy guard without a report. *)
Theorem no_agent_no_dispatch_state_unchanged :
  forall (s : Sys) (ev : Event),
    ev = CallStart \/ ev = CallStop ->
    find_agent (room s) = None ->
    fst (step ev s) = s
    /\ dispatches (snd (step ev s)) = false
    /\ (isLoading (hooks s) = false ->
          snd (step ev s) = [SetIsLoading true; no_agent_error; SetIsLoading false])
    /\ (isLoading (hooks s) = true -> snd (step ev s) = []).
Proof.
  intros s ev Hev Ha.
  destruct (isLoading (hooks s)) eqn:Hl.
  - destruct Hev as [-> | ->];
      [rewrite (step_start_busy s Hl) | rewrite (step_stop_busy s Hl)];
      simpl; repeat split; auto; discriminate.
  - destruct Hev as [-> | ->];
      [rewrite (step_start_no_agent s Hl Ha) | rewrite (step_stop_no_agent s Hl Ha)];
      simpl; repeat split; auto; discriminate.
Qed.

Lemma no_agent_no_dispatch_state_unchanged_witness :
  let s := mount agentless_room in
  fst (step CallStart s) = s
  /\ dispatches (snd (step CallStart s)) = false
  /\ snd (step CallStart s) = [SetIsLoading true; no_agent_error; SetIsLoading false].
Proof.
  intros s.
  destruct (no_agent_no_dispatch_state_unchanged s CallStart) as (H1 & H2 & H3 & _).
  - left; reflexivity.
  - reflexivity.
  - split; [exact H1 | split; [exact H2 | apply H3; reflexivity]].
Defined.

(** C3, as stated, fails: the handler does not look at the active flag,
    so a second [startGame()] issued while the game is active succeeds,
    leaves the flag at active and resets the score without any transition
    into the active state. *)
Lemma start_while_active_succeeds :
  let s1 := fst (run [CallStart; Settle 0 (Resolved "ok")] (mount sample_room)) in
  let s2 := fst (step CallStart s1) in
  let ev := Settle 0 (Resolved "ok") in
  gameStarted (hooks s1) = true
  /\ completes StartCont ev s2 = true
  /\ gameStarted (hooks s2) = true
  /\ gameStarted (hooks (fst (step ev s2))) = true
  /\ resets_score (snd (step ev s2)) = true.
Proof.
  vm_compute. repeat split.
Qed.

(** Through the rendered controls: which steps move the active flag, and
    that [setScore] is called exactly in the steps that activate. *)
Lemma playing_step_flag :
  forall (s : Sys) (ev : Event),
    playing s ->
    offered ev s = true ->
    let s' := fst (step ev s) in
    let acts := snd (step ev s) in
    (completes StartCont ev s = true ->
       gameStarted (hooks s) = false /\ gameStarted (hooks s') = true)
    /\ (completes StopCont ev s = true ->
          gameStarted (hooks s) = true /\ gameStarted (hooks s') = false)
    /\ (completes StartCont ev s = false ->
        completes StopCont ev s = false ->
          gameStarted (hooks s') = gameStarted (hooks s))
    /\ (resets_score acts = true <->
          gameStarted (hooks s) = false /\ gameStarted (hooks s') = true).
Proof.
  intros s ev Hp Hoff.
  pose proof (playing_call_matches_flag s Hp) as Hinv.
  destruct ev as [ | | i r | v | r].
  - (* start requested *)
    simpl in Hoff. apply andb_true_iff in Hoff as [_ Hl].
    apply negb_true_iff in Hl.
    destruct (find_agent (room s)) as [agent | ] eqn:Ha; cbv zeta.
    + cbn [step]. rewrite (handleStartGame_dispatch _ _ agent _ Hl Ha). simpl.
      repeat split; try discriminate; try reflexivity.
      intros [H1 H2]; congruence.
    + rewrite (step_start_no_agent s Hl Ha). simpl.
      repeat split; try discriminate; try reflexivity.
      intros [H1 H2]; congruence.
  - (* stop requested *)
    simpl in Hoff. apply andb_true_iff in Hoff as [_ Hl].
    apply negb_true_iff in Hl.
    destruct (find_agent (room s)) as [agent | ] eqn:Ha; cbv zeta.
    + cbn [step]. rewrite (handleStopGame_dispatch _ _ agent _ Hl Ha). simpl.
      repeat split; try discriminate; try reflexivity.
      intros [H1 H2]; congruence.
    + rewrite (step_stop_no_agent s Hl Ha). simpl.
      repeat split; try discriminate; try reflexivity.
      intros [H1 H2]; congruence.
  - (* a call settles *)
    simpl in Hoff. cbv zeta. unfold completes. cbn [step].
    destruct Hinv as [[_ Hi] | [(Hl & Hg & req & Hi) | (Hl & Hg & req & Hi)]];
      rewrite Hi in *.
    + destruct i; discriminate.
    + destruct i as [ | i]; [ | destruct i; discriminate].
      destruct r as [resp | e]; simpl; rewrite Hg;
        repeat split; try discriminate; try reflexivity; try tauto.
    + destruct i as [ | i]; [ | destruct i; discriminate].
      destruct r as [resp | e]; simpl; rewrite Hg;
        repeat split; try discriminate; try reflexivity; try tauto;
        intros [H1 _]; discriminate.
  - (* language chosen *)
    simpl. repeat split; try discriminate.
    intros [H1 H2]; congruence.
  - (* room changed, still connected *)
    cbv zeta. rewrite (offered_room_keeps_hooks _ _ Hoff). simpl.
    repeat split; try discriminate.
    intros [H1 H2]; congruence.
Qed.

(** Whatever the state and the event, [setScore] is only called with the
    zero score and leaves the score at zero; a step that does not call it
    leaves the score as it was. *)
Lemma step_score ev s :
  (forall sc, In (SetScore sc) (snd (step ev s)) ->
     sc = zero_score /\ score (hooks (fst (step ev s))) = zero_score)
  /\ (resets_score (snd (step ev s)) = false ->
        score (hooks (fst (step ev s))) = score (hooks s)).
Proof.
  destruct ev as [ | | i r | v | r].
  - destruct (isLoading (hooks s)) eqn:Hl.
    + rewrite (step_start_busy s Hl). simpl. split; [intros sc [] | reflexivity].
    + destruct (find_agent (room s)) as [agent | ] eqn:Ha.
      * cbn [step]. rewrite (handleStartGame_dispatch _ _ agent _ Hl Ha). simpl.
        split; [ | reflexivity]. intros sc [H | [H | []]]; discriminate.
      * rewrite (step_start_no_agent s Hl Ha). simpl.
        split; [ | reflexivity]. intros sc [H | [H | [H | []]]]; discriminate.
  - destruct (isLoading (hooks s)) eqn:Hl.
    + rewrite (step_stop_busy s Hl). simpl. split; [intros sc [] | reflexivity].
    + destruct (find_agent (room s)) as [agent | ] eqn:Ha.
      * cbn [step]. rewrite (handleStopGame_dispatch _ _ agent _ Hl Ha). simpl.
        split; [ | reflexivity]. intros sc [H | [H | []]]; discriminate.
      * rewrite (step_stop_no_agent s Hl Ha). simpl.
        split; [ | reflexivity]. intros sc [H | [H | [H | []]]]; discriminate.
  - cbn [step]. destruct (nth_error (inflight s) i) as [[req k] | ];
      [ | simpl; split; [intros sc [] | reflexivity]].
    destruct k, r as [resp | e]; simpl.
    + split; [ | discriminate].
      intros sc [H | [H | [H | []]]]; try discriminate. injection H as <-. auto.
    + split; [ | reflexivity]. intros sc [H | [H | []]]; discriminate.
    + split; [ | reflexivity]. intros sc [H | [H | []]]; discriminate.
    + split; [ | reflexivity]. intros sc [H | [H | []]]; discriminate.
  - simpl. split; [ | reflexivity]. intros sc [H | []]; discriminate.
  - cbn [step]. destruct (String.eqb (state r) (state (room s)));
      [simpl; split; [intros sc [] | reflexivity] | ].
    destruct (roomStateEffect_cases r (hooks s)) as [E | E]; rewrite E; simpl.
    + split; [intros sc [] | reflexivity].
    + split; [ | discriminate].
      intros sc [H | [H | []]]; try discriminate. injection H as <-. auto.
Qed.

(** C3, amended.  For every sequence of start and stop requests issued
    through the rendered controls (START GAME is offered only while the
    game is inactive, STOP GAME only while it is active, neither while a
    call is in flight) in a room that stays connected: a successful start
    moves the flag from inactive to active, a successful stop from active
    to inactive, no other event changes the flag, and the score is reset
    exactly in the steps that move the flag from inactive to active: in
    such a step [setScore] is called with [{correct: 0, total: 0}] and the
    score is zero afterwards; [setScore] is never called with another
    value; and a step that does not activate does not call [setScore] and
    leaves the score as it was. *)
Theorem active_alternates_score_reset_on_activation :
  forall (s : Sys) (ev : Event),
    playing s ->
    offered ev s = true ->
    let s' := fst (step ev s) in
    let acts := snd (step ev s) in
    (completes StartCont ev s = true ->
       gameStarted (hooks s) = false /\ gameStarted (hooks s') = true)
    /\ (completes StopCont ev s = true ->
          gameStarted (hooks s) = true /\ gameStarted (hooks s') = false)
    /\ (completes StartCont ev s = false ->
        completes StopCont ev s = false ->
          gameStarted (hooks s') = gameStarted (hooks s))
    /\ (resets_score acts = true <->
          gameStarted (hooks s) = false /\ gameStarted (hooks s') = true)
    /\ (gameStarted (hooks s) = false /\ gameStarted (hooks s') = true ->
          In (SetScore zero_score) acts /\ score (hooks s') = zero_score)
    /\ (forall sc, In (SetScore sc) acts -> sc = zero_score)
    /\ (~ (gameStarted (hooks s) = false /\ gameStarted (hooks s') = true) ->
          (forall sc, ~ In (SetScore sc) acts)
          /\ score (hooks s') = score (hooks s)).
Proof.
  intros s ev Hp Hoff. cbv zeta.
  destruct (playing_step_flag s ev Hp Hoff) as (F1 & F2 & F3 & F4).
  destruct (step_score ev s) as [Szero Ssame].
  split; [exact F1 | split; [exact F2 | split; [exact F3 | split; [exact F4 | ]]]].
  split; [ | split].
  - intros Hact. apply F4 in Hact. unfold resets_score in Hact.
    apply existsb_exists in Hact as (a & Hin & Ha).
    destruct a as [b | b | v | sc | msg d | req]; try discriminate.
    destruct (Szero sc Hin) as [-> Hz]. split; assumption.
  - intros sc Hin. apply (Szero sc Hin).
  - intros Hno.
    assert (Hr : resets_score (snd (step ev s)) = false).
    { destruct (resets_score (snd (step ev s))) eqn:Hr; [ | reflexivity].
      exfalso. apply Hno, F4. reflexivity. }
    split; [ | exact (Ssame Hr)].
    intros sc Hin. unfold resets_score in Hr.
    assert (Hex : existsb is_SetScore (snd (step ev s)) = true)
      by (apply existsb_exists; exists (SetScore sc); split; [exact Hin | reflexivity]).
    congruence.
Qed.

Lemma active_alternates_score_reset_on_activation_witness :
  let s := fst (step CallStart (mount sample_room)) in
  let ev := Settle 0 (Resolved "ok") in
  (completes StartCont ev s = true ->
     gameStarted (hooks s) = false /\ gameStarted (hooks (fst (step ev s))) = true)
  /\ (resets_score (snd (step ev s)) = true <->
        gameStarted (hooks s) = false /\ gameStarted (hooks (fst (step ev s))) = true)
  /\ In (SetScore zero_score) (snd (step ev s))
  /\ score (hooks (fst (step ev s))) = zero_score.
Proof.
  intros s ev.
  destruct (active_alternates_score_reset_on_activation s ev)
    as (H1 & _ & _ & H4 & H5 & _).
  - apply playing_step; [apply playing_mount | reflexivity].
  - reflexivity.
  - split; [exact H1 | split; [exact H4 | ]].
    apply H5. split; reflexivity.
Defined.

(** *** Frame lemmas *)

Lemma handleStartGame_keeps_game rendered room h :
  let h' := snd (fst (handleStartGame rendered room h)) in
  gameStarted h' = gameStarted h
  /\ selectedLanguage h' = selectedLanguage h
  /\ score h' = score h.
Proof.
  destruct (isLoading rendered) eqn:Hl.
  - rewrite (handleStartGame_busy _ _ _ Hl). simpl. auto.
  - destruct (find_agent room) as [agent | ] eqn:Ha.
    + rewrite (handleStartGame_dispatch _ _ agent _ Hl Ha). simpl. auto.
    + rewrite (handleStartGame_no_agent _ _ _ Hl Ha). simpl. auto.
Qed.

Lemma handleStopGame_keeps_game rendered room h :
  let h' := snd (fst (handleStopGame rendered room h)) in
  gameStarted h' = gameStarted h
  /\ selectedLanguage h' = selectedLanguage h
  /\ score h' = score h.
Proof.
  destruct (isLoading rendered) eqn:Hl.
  - rewrite (handleStopGame_busy _ _ _ Hl). simpl. auto.
  - destruct (find_agent room) as [agent | ] eqn:Ha.
    + rewrite (handleStopGame_dispatch _ _ agent _ Hl Ha). simpl. auto.
    + rewrite (handleStopGame_no_agent _ _ _ Hl Ha). simpl. auto.
Qed.

Lemma step_hooks_start s :
  hooks (fst (step CallStart s)) = snd (fst (handleStartGame (hooks s) (room s) (hooks s))).
Proof.
  simpl. destruct (handleStartGame (hooks s) (room s) (hooks s)) as [[c h] a]. reflexivity.
Qed.

Lemma step_hooks_stop s :
  hooks (fst (step CallStop s)) = snd (fst (handleStopGame (hooks s) (room s) (hooks s))).
Proof.
  simpl. destruct (handleStopGame (hooks s) (room s) (hooks s)) as [[c h] a]. reflexivity.
Qed.

Lemma step_keeps_language ev s :
  is_SelectLanguage ev = false ->
  selectedLanguage (hooks (fst (step ev s))) = selectedLanguage (hooks s).
Proof.
  intros Hev. destruct ev as [ | | i r | v | r]; try discriminate.
  - rewrite step_hooks_start. apply handleStartGame_keeps_game.
  - rewrite step_hooks_stop. apply handleStopGame_keeps_game.
  - simpl. destruct (nth_error (inflight s) i) as [[req [ | ]] | ]; [ | | reflexivity];
      destruct r; reflexivity.
  - simpl. destruct (String.eqb (state r) (state (room s))); [reflexivity | ].
    destruct (roomStateEffect_cases r (hooks s)) as [E | E]; rewrite E; reflexivity.
Qed.

Lemma run_keeps_language evs : forall s,
  existsb is_SelectLanguage evs = false ->
  selectedLanguage (hooks (fst (run evs s))) = selectedLanguage (hooks s).
Proof.
  induction evs as [ | ev evs IH]; intros s Hevs; [reflexivity | ].
  simpl in Hevs. apply orb_false_iff in Hevs as [Hev Hevs].
  simpl. pose proof (step_keeps_language ev s Hev) as Hstep.
  destruct (step ev s) as [s1 a1]. simpl in Hstep.
  specialize (IH s1 Hevs). destruct (run evs s1) as [s2 a2]. simpl in *. congruence.
Qed.

Lemma step_keeps_score ev s :
  completes StartCont ev s = false ->
  room_disconnects ev s = false ->
  score (hooks (fst (step ev s))) = score (hooks s).
Proof.
  intros Hc Hd. destruct ev as [ | | i r | v | r].
  - rewrite step_hooks_start. apply handleStartGame_keeps_game.
  - rewrite step_hooks_stop. apply handleStopGame_keeps_game.
  - simpl in *. destruct (nth_error (inflight s) i) as [[req [ | ]] | ]; [ | | reflexivity];
      destruct r; simpl in *; try reflexivity; discriminate.
  - reflexivity.
  - simpl in *. unfold roomStateEffect.
    destruct (String.eqb (state r) (state (room s))); [reflexivity | ].
    destruct (String.eqb (state r) "disconnected"); [discriminate | reflexivity].
Qed.

Lemma run_keeps_score evs : forall s,
  before_next_start evs s = true ->
  score (hooks (fst (run evs s))) = score (hooks s).
Proof.
  induction evs as [ | ev evs IH]; intros s Hevs; [reflexivity | ].
  simpl in Hevs. apply andb_true_iff in Hevs as [Hev Hevs].
  apply andb_true_iff in Hev as [Hc Hd]. apply negb_true_iff in Hc, Hd.
  simpl. pose proof (step_keeps_score ev s Hc Hd) as Hstep.
  destruct (step ev s) as [s1 a1]. simpl in Hstep, Hevs.
  specialize (IH s1 Hevs). destruct (run evs s1) as [s2 a2]. simpl in *. congruence.
Qed.

(** C6.  For every language [x] of [LANGUAGES], choosing [x] and then
    starting the game (no call in flight, an agent in the room) dispatches
    exactly one remote call: [start_game] to the agent with payload [x];
    when that call is fulfilled the game is active and [x] is still the
    selected language. *)
Theorem selected_language_is_start_payload :
  forall (x : string) (s : Sys) (agent : Participant) (resp : string),
    In x language_values ->
    isLoading (hooks s) = false ->
    find_agent (room s) = Some agent ->
    let s1 := fst (step (SelectLanguage x) s) in
    let s2 := fst (step CallStart s1) in
    let s3 := fst (step (Settle (length (inflight s)) (Resolved resp)) s2) in
    filter is_PerformRpc (snd (step CallStart s1))
      = [PerformRpc (mkRpc (identity agent) "start_game" x)]
    /\ inflight s2 = inflight s ++ [mkPending (mkRpc (identity agent) "start_game" x) StartCont]
    /\ gameStarted (hooks s3) = true
    /\ selectedLanguage (hooks s3) = x.
Proof.
  intros x s agent resp _ Hl Ha.
  set (s1 := fst (step (SelectLanguage x) s)).
  assert (Hl1 : isLoading (hooks s1) = false) by exact Hl.
  assert (Ha1 : find_agent (room s1) = Some agent) by exact Ha.
  assert (Hx : selectedLanguage (hooks s1) = x) by reflexivity.
  assert (Hi : inflight s1 = inflight s) by reflexivity.
  cbv zeta. cbn [step].
  rewrite (handleStartGame_dispatch _ _ agent _ Hl1 Ha1), Hx, Hi.
  cbn [fst snd hooks room inflight parked filter is_PerformRpc].
  rewrite nth_error_snoc_length. cbn [p_cont resume].
  rewrite resumeStartGame_resolved. simpl. auto.
Qed.

Lemma selected_language_is_start_payload_witness :
  let s1 := fst (step (SelectLanguage "Belarusian") (mount sample_room)) in
  filter is_PerformRpc (snd (step CallStart s1))
    = [PerformRpc (mkRpc "agent-AJ_x7" "start_game" "Belarusian")].
Proof.
  intros s1.
  refine (proj1 (selected_language_is_start_payload
                   "Belarusian" (mount sample_room) sample_agent "ok" _ _ _)).
  - simpl. tauto.
  - reflexivity.
  - reflexivity.
Defined.

(** C7.  When the remote call of [startGame()] or [stopGame()] is
    rejected, the handler catches the error (its own promise is
    fulfilled, nothing propagates), clears the busy flag and dispatches
    nothing further; the hooks are back at their value before the call,
    so active flag, score and language are unchanged.  Whatever the hooks
    are when the rejection arrives, the continuation only clears the busy
    flag. *)
Theorem rpc_failure_caught_busy_cleared_state_kept :
  forall (k : Cont) (h : Hooks) (room : Room) (agent : Participant) (e : string),
    isLoading h = false ->
    find_agent room = Some agent ->
    let '(c1, h1, a1) := handler k h room h in
    let '(c2, h2, a2) := resume k (Rejected e) h1 in
    (exists req, c1 = Suspend req k)
    /\ isLoading h1 = true
    /\ propagates c2 = false
    /\ h2 = h
    /\ dispatches a2 = false
    /\ (forall h' : Hooks,
          let '(c', h2', _) := resume k (Rejected e) h' in
          propagates c' = false
          /\ h2' = mkHooks false (gameStarted h') (selectedLanguage h') (score h')).
Proof.
  intros k h room agent e Hl Ha. destruct k; cbn [handler resume].
  - rewrite (handleStartGame_dispatch _ _ agent _ Hl Ha), resumeStartGame_rejected.
    cbn [gameStarted selectedLanguage score isLoading].
    rewrite (hooks_not_loading _ Hl).
    repeat split; eauto.
  - rewrite (handleStopGame_dispatch _ _ agent _ Hl Ha), resumeStopGame_rejected.
    cbn [gameStarted selectedLanguage score isLoading].
    rewrite (hooks_not_loading _ Hl).
    repeat split; eauto.
Qed.

Lemma rpc_failure_caught_busy_cleared_state_kept_witness :
  let h := mkHooks false true "French" (mkScore 2 3) in
  let '(c1, h1, a1) := handler StopCont h sample_room h in
  let '(c2, h2, a2) := resume StopCont (Rejected "RpcError: Response timeout") h1 in
  propagates c2 = false /\ h2 = h.
Proof.
  intros h.
  pose proof (rpc_failure_caught_busy_cleared_state_kept
                StopCont h sample_room sample_agent "RpcError: Response timeout"
                eq_refl eq_refl) as H.
  destruct (handler StopCont h sample_room h) as [[c1 h1] a1].
  destruct (resume StopCont (Rejected "RpcError: Response timeout") h1) as [[c2 h2] a2].
  destruct H as (_ & _ & H3 & H4 & _). split; assumption.
Defined.

(** C8.  In every state reachable by start and stop calls, settled
    remote calls, language choices and room changes (disconnects
    included), [score.correct <= score.total]. *)
Theorem score_correct_le_total :
  forall s : Sys,
    reachable s ->
    (correct (score (hooks s)) <= total (score (hooks s)))%N.
Proof.
  intros s Hr. destruct (reachable_busy_tracks_inflight s Hr) as [Hsc _].
  rewrite Hsc. simpl. lia.
Qed.

Lemma score_correct_le_total_witness :
  let s1 := fst (step CallStart (mount sample_room)) in
  let s2 := fst (step (Settle 0 (Resolved "ok")) s1) in
  let s3 := fst (step (RoomChanged (mkRoom "disconnected" [])) s2) in
  (correct (score (hooks s3)) <= total (score (hooks s3)))%N.
Proof.
  intros s1 s2 s3.
  apply score_correct_le_total.
  apply reach_step, reach_step, reach_step, reach_mount.
Defined.

(** C9, as stated, fails: after a successful stop the score is reset
    before any further [startGame()], when the room disconnects.  In the
    run below the game is started and stopped, then the room turns
    disconnected: the effect calls [setScore] with the zero score although
    no start follows the stop.  From hooks that hold the score 2 / 3 the
    same disconnect takes the retained score to 0 / 0. *)
Lemma score_reset_by_disconnect_after_stop :
  let s := fst (run [CallStart; Settle 0 (Resolved "ok"); CallStop; Settle 0 (Resolved "ok")]
                    (mount sample_room)) in
  let ev := RoomChanged (mkRoom "disconnected" []) in
  let t := fst (step (Settle 0 (Resolved "ok"))
                     (fst (step CallStop
                             (mkSys (mkHooks false true "French" (mkScore 2 3))
                                    sample_room [])))) in
  gameStarted (hooks s) = false
  /\ completes StartCont ev s = false
  /\ snd (step ev s) = [SetGameStarted false; SetScore zero_score]
  /\ resets_score (snd (step ev s)) = true
  /\ score (hooks t) = mkScore 2 3
  /\ score (hooks (fst (step ev t))) = mkScore 0 0.
Proof.
  vm_compute. repeat split.
Qed.

(** C9, amended.  A successful [stopGame()] sets the active flag to false
    and changes nothing else: busy flag, score and selected language are as
    before the call and [setScore] is not called.  The score then stays at
    that value through every later event, up to the next start that
    completes or the next disconnect of the room, whichever comes first. *)
Theorem stop_changes_only_active_flag :
  forall (s : Sys) (agent : Participant) (resp : string) (evs : list Event),
    isLoading (hooks s) = false ->
    find_agent (room s) = Some agent ->
    let r1 := step CallStop s in
    let r2 := step (Settle (length (inflight s)) (Resolved resp)) (fst r1) in
    before_next_start evs (fst r2) = true ->
    hooks (fst r2)
      = mkHooks (isLoading (hooks s)) false (selectedLanguage (hooks s)) (score (hooks s))
    /\ inflight (fst r2) = inflight s
    /\ resets_score (snd r1 ++ snd r2) = false
    /\ score (hooks (fst (run evs (fst r2)))) = score (hooks s).
Proof.
  intros s agent resp evs Hl Ha. cbv zeta. cbn [step].
  rewrite (handleStopGame_dispatch _ _ agent _ Hl Ha).
  cbn [fst snd hooks room inflight parked].
  rewrite nth_error_snoc_length, remove_nth_snoc_length. cbn [p_cont resume].
  rewrite resumeStopGame_resolved.
  cbn [fst snd hooks room inflight parked selectedLanguage score].
  intros Hevs. rewrite (run_keeps_score _ _ Hevs), Hl, app_nil_r.
  repeat split.
Qed.

Lemma stop_changes_only_active_flag_witness :
  let s := mkSys (mkHooks false true "French" (mkScore 2 3)) sample_room [] in
  let s2 := fst (step (Settle 0 (Resolved "ok")) (fst (step CallStop s))) in
  hooks s2 = mkHooks false false "French" (mkScore 2 3)
  /\ score (hooks (fst (run [CallStart; Settle 0 (Rejected "timeout"); CallStop] s2)))
     = mkScore 2 3.
Proof.
  intros s s2.
  destruct (stop_changes_only_active_flag
              s sample_agent "ok" [CallStart; Settle 0 (Rejected "timeout"); CallStop]
              eq_refl eq_refl eq_refl) as (H1 & _ & _ & H4).
  split; [exact H1 | exact H4].
Defined.

(** C10, as stated, fails: the control bar stays mounted from one session
    to the next and the disconnect effect leaves the selected language
    alone.  Below, French is chosen and played in a first session; the room
    disconnects and connects again; in the second session no language is
    chosen, and the start sends French. *)
Lemma later_session_keeps_selected_language :
  let first := [SelectLanguage "French"; CallStart; Settle 0 (Resolved "ok")] in
  let between := [RoomChanged (mkRoom "disconnected" []); RoomChanged sample_room] in
  let s := fst (run (first ++ between) (mount sample_room)) in
  existsb is_SelectLanguage between = false
  /\ gameStarted (hooks s) = false
  /\ isLoading (hooks s) = false
  /\ selectedLanguage (hooks s) = "French"
  /\ filter is_PerformRpc (snd (step CallStart s))
     = [PerformRpc (mkRpc "agent-AJ_x7" "start_game" "French")].
Proof.
  vm_compute. repeat split.
Qed.

(** C10, amended.  The selected language starts as Portuguese when the
    control bar is mounted and stays so until the first language choice
    after that, through however many sessions; a [startGame()] issued
    before any choice since the mount (no call in flight, an agent in the
    room) dispatches exactly one remote call, [start_game] with payload
    Portuguese. *)
Theorem default_language_is_portuguese :
  forall (r : Room) (evs : list Event) (agent : Participant),
    existsb is_SelectLanguage evs = false ->
    let s := fst (run evs (mount r)) in
    isLoading (hooks s) = false ->
    find_agent (room s) = Some agent ->
    selectedLanguage initial_hooks = "Portuguese"
    /\ selectedLanguage (hooks s) = "Portuguese"
    /\ filter is_PerformRpc (snd (step CallStart s))
       = [PerformRpc (mkRpc (identity agent) "start_game" "Portuguese")].
Proof.
  intros r evs agent Hevs s Hl Ha.
  assert (Hlang : selectedLanguage (hooks s) = "Portuguese").
  { unfold s. rewrite (run_keeps_language _ _ Hevs). unfold mount.
    destruct (roomStateEffect_cases r initial_hooks) as [E | E]; rewrite E; reflexivity. }
  split; [reflexivity | split; [exact Hlang | ]].
  cbn [step]. rewrite (handleStartGame_dispatch _ _ agent _ Hl Ha), Hlang. reflexivity.
Qed.

Lemma default_language_is_portuguese_witness :
  let s := fst (run [CallStart; Settle 0 (Resolved "ok"); CallStop; Settle 0 (Resolved "ok")]
                    (mount sample_room)) in
  selectedLanguage (hooks s) = "Portuguese"
  /\ filter is_PerformRpc (snd (step CallStart s))
     = [PerformRpc (mkRpc "agent-AJ_x7" "start_game" "Portuguese")].
Proof.
  intros s.
  refine (proj2 (default_language_is_portuguese
                   sample_room
                   [CallStart; Settle 0 (Resolved "ok"); CallStop; Settle 0 (Resolved "ok")]
                   sample_agent _ _ _)).
  - reflexivity.
  - reflexivity.
  - reflexivity.
Defined.

End ControlBarClaims.

(* ================================================================= *)
(** ** Properties of the session view *)

Section SessionViewFacts.
Import SessionView.

Lemma clearTimeout_own t : clearTimeout (t_id t) [t] = [].
Proof. unfold clearTimeout. simpl. rewrite Nat.eqb_refl. reflexivity. Qed.

Lemma runCleanup_clears v :
  timer_tracks_render v ->
  fst (runCleanup v)
    = mkView (mounted v) (sessionStarted v) (agentState v) None (now v) [] (nextId v)
  /\ snd (runCleanup v)
     = match cleanup v with Some id => [ClearTimeout id] | None => [] end.
Proof.
  intros [[Ht _] | (t & Ht & Hc & _)]; unfold runCleanup.
  - destruct (cleanup v) as [id | ] eqn:Hc; simpl.
    + rewrite Ht. split; reflexivity.
    + split; [ | reflexivity]. destruct v; simpl in *; subst; reflexivity.
  - rewrite Hc, Ht, clearTimeout_own. simpl. split; reflexivity.
Qed.

Lemma rerender_changed started a v :
  timer_tracks_render v ->
  Bool.eqb started (sessionStarted v) && String.eqb a (agentState v) = false ->
  rerender started a v
    = (rearmed started a v,
       match cleanup v with Some id => [ClearTimeout id] | None => [] end
       ++ (if started then [SetTimeout (nextId v) LIVENESS_DELAY] else [])).
Proof.
  intros Hinv Hdeps. unfold rerender. rewrite Hdeps.
  destruct (runCleanup_clears v Hinv) as [Hv1 Ha1].
  destruct (runCleanup v) as [v1 a1]. simpl in Hv1, Ha1. subst v1 a1.
  unfold effect, rearmed. simpl. destruct started; reflexivity.
Qed.

Lemma rearmed_tracks started a v :
  mounted v = true -> timer_tracks_render (rearmed started a v).
Proof.
  intros Hm. unfold rearmed. destruct started.
  - right. exists (mkTimer (nextId v) (now v + LIVENESS_DELAY)%N a).
    unfold LIVENESS_DELAY. simpl. repeat split; try assumption; lia.
  - left. simpl. split; reflexivity.
Qed.

Lemma rerender_tracks started a v :
  mounted v = true -> timer_tracks_render v ->
  timer_tracks_render (fst (rerender started a v)).
Proof.
  intros Hm Hinv.
  destruct (Bool.eqb started (sessionStarted v) && String.eqb a (agentState v)) eqn:Hdeps.
  - unfold rerender. rewrite Hdeps. exact Hinv.
  - rewrite (rerender_changed _ _ _ Hinv Hdeps). apply rearmed_tracks, Hm.
Qed.

Lemma advance_tracks d v :
  timer_tracks_render v -> timer_tracks_render (fst (advance d v)).
Proof.
  intros [[Ht Hc] | (t & Ht & Hc & Ha & Hs & Hm & Hdue)]; unfold advance; simpl; rewrite Ht; simpl.
  - left. split; [reflexivity | exact Hc].
  - unfold is_due. destruct (N.leb_spec (t_due t) (now v + d)) as [Hle | Hgt]; simpl.
    + left. split; [reflexivity | intros Hs'; rewrite Hs in Hs'; discriminate].
    + right. exists t. simpl. repeat split; try assumption; lia.
Qed.

Lemma mount_tracks started a t0 : timer_tracks_render (mount started a t0).
Proof.
  unfold mount, effect. simpl. destruct started; simpl.
  - right. exists (mkTimer 0 (t0 + LIVENESS_DELAY)%N a).
    unfold LIVENESS_DELAY. simpl. repeat split; lia.
  - left. split; reflexivity.
Qed.

Lemma step_tracks ev v :
  timer_tracks_render v -> timer_tracks_render (fst (step ev v)).
Proof.
  intros Hinv. destruct ev as [b | a | d | ]; simpl.
  - destruct (mounted v) eqn:Hm; [apply rerender_tracks; assumption | exact Hinv].
  - destruct (mounted v) eqn:Hm; [apply rerender_tracks; assumption | exact Hinv].
  - apply advance_tracks, Hinv.
  - destruct (mounted v) eqn:Hm; [ | exact Hinv].
    destruct (runCleanup_clears v Hinv) as [Hv1 _].
    destruct (runCleanup v) as [v1 a1]. simpl in Hv1. subst v1. simpl.
    left. split; reflexivity.
Qed.

Lemma reachable_tracks v : reachable v -> timer_tracks_render v.
Proof.
  induction 1 as [started a t0 | v ev _ IH].
  - apply mount_tracks.
  - apply step_tracks, IH.
Qed.

End SessionViewFacts.

Section SessionViewClaims.
Import SessionView.

Lemma run_advances_idle ds : forall v,
  timers v = [] -> snd (run (map Advance ds) v) = [].
Proof.
  induction ds as [ | d ds IH]; intros v Ht; [reflexivity | ].
  cbn [map run step]. unfold advance. rewrite Ht. cbn [filter flat_map].
  match goal with |- context [run _ ?v1] => specialize (IH v1 eq_refl) end.
  destruct (run (map Advance ds) _) as [v2 a2]. simpl in *. exact IH.
Qed.

(** With one timeout pending and nothing but time passing, its callback
    runs once, in the step that reaches the due time. *)
Lemma run_advances_single ds : forall v t,
  timers v = [t] ->
  (now v < t_due t)%N ->
  snd (run (map Advance ds) v)
    = if (t_due t <=? now v + total_time ds)%N then onTimeout (t_agentState t) else [].
Proof.
  induction ds as [ | d ds IH]; intros v t Ht Hnow.
  - simpl. rewrite N.add_0_r.
    destruct (N.leb_spec (t_due t) (now v)); [lia | reflexivity].
  - cbn [map run step total_time fold_right]. unfold advance. rewrite Ht.
    cbn [filter flat_map]. unfold is_due at 1 2.
    destruct (N.leb_spec (t_due t) (now v + d)) as [Hle | Hgt]; cbn [negb flat_map].
    + match goal with |- context [run _ ?v1] =>
        pose proof (run_advances_idle ds v1 eq_refl) as Hidle;
        destruct (run (map Advance ds) v1) as [v2 a2]
      end.
      simpl in Hidle. subst a2. simpl. rewrite !app_nil_r.
      destruct (N.leb_spec (t_due t) (now v + (d + fold_right N.add 0%N ds)));
        [reflexivity | lia].
    + match goal with |- context [run _ ?v1] =>
        pose proof (IH v1 t eq_refl Hgt) as Hrest;
        destruct (run (map Advance ds) v1) as [v2 a2]
      end.
      simpl in Hrest. simpl. rewrite Hrest.
      unfold total_time. rewrite N.add_assoc. reflexivity.
Qed.

Lemma step_session_start v :
  timer_tracks_render v ->
  mounted v = true ->
  sessionStarted v = false ->
  step (SessionStartedProp true) v
    = (rearmed true (agentState v) v, [SetTimeout (nextId v) LIVENESS_DELAY]).
Proof.
  intros Hinv Hm Hs. cbn [step]. rewrite Hm.
  rewrite (rerender_changed true (agentState v) v Hinv) by (rewrite Hs; reflexivity).
  destruct Hinv as [[_ Hc] | (t & _ & _ & _ & Hs' & _)]; [ | congruence].
  rewrite (Hc Hs). reflexivity.
Qed.

(** C4.  When the session starts while the agent state is [connecting]
    and only time passes: once the 20 000 ms are over the callback has run,
    the toast gives the reason that the agent did not join and the room is
    disconnected; before that nothing but the arming has happened.  The
    same toast and disconnect follow from any moment of a session at which
    the agent state is [connecting] and the timeout is pending, once
    20 000 ms have passed with nothing else happening.  In every reachable
    state whose agent state is [listening], [thinking] or [speaking], no
    passage of time makes a timeout toast or disconnect. *)
Theorem liveness_timeout_disconnects_only_unavailable_agent :
  forall (v : View) (ds : list N) (d : N),
    reachable v ->
    (mounted v = true ->
     sessionStarted v = false ->
     agentState v = "connecting" ->
     let acts := snd (run (SessionStartedProp true :: map Advance ds) v) in
     (LIVENESS_DELAY <= total_time ds ->
        acts = [SetTimeout (nextId v) LIVENESS_DELAY;
                ToastAlert "Session ended" "Agent did not join the room. ";
                RoomDisconnect])%N
     /\ (total_time ds < LIVENESS_DELAY ->
           acts = [SetTimeout (nextId v) LIVENESS_DELAY])%N)
    /\ (sessionStarted v = true ->
        agentState v = "connecting" ->
        timers v <> [] ->
        (LIVENESS_DELAY <= total_time ds)%N ->
          snd (run (map Advance ds) v)
            = [ToastAlert "Session ended" "Agent did not join the room. "; RoomDisconnect])
    /\ (isAgentAvailable (agentState v) = true ->
          snd (step (Advance d) v) = []).
Proof.
  intros v ds d Hr. pose proof (reachable_tracks v Hr) as Hinv.
  split; [ | split].
  - intros Hm Hs Ha. cbv zeta. cbn [run].
    rewrite (step_session_start v Hinv Hm Hs).
    pose proof (run_advances_single ds (rearmed true (agentState v) v)
                  (mkTimer (nextId v) (now v + LIVENESS_DELAY)%N (agentState v))
                  eq_refl) as Hrun.
    cbn [t_due t_agentState] in Hrun.
    change (now (rearmed true (agentState v) v)) with (now v) in Hrun.
    assert (Hlt : (now v < now v + LIVENESS_DELAY)%N) by (unfold LIVENESS_DELAY; lia).
    specialize (Hrun Hlt).
    destruct (run (map Advance ds) (rearmed true (agentState v) v)) as [v2 a2].
    cbn [snd] in Hrun. cbn [snd app]. rewrite Hrun, Ha.
    split; intros Hd.
    + destruct (N.leb_spec (now v + LIVENESS_DELAY) (now v + total_time ds));
        [reflexivity | lia].
    + destruct (N.leb_spec (now v + LIVENESS_DELAY) (now v + total_time ds));
        [lia | reflexivity].
  - intros _ Ha Hpending Hd.
    destruct Hinv as [[Ht _] | (t & Ht & _ & Hcap & _ & _ & Hdue)]; [contradiction | ].
    rewrite (run_advances_single ds v t Ht (proj1 Hdue)), Hcap, Ha.
    destruct (N.leb_spec (t_due t) (now v + total_time ds)); [reflexivity | lia].
  - intros Hav. cbn [step]. unfold advance. cbn [snd].
    destruct Hinv as [[Ht _] | (t & Ht & _ & Hcap & _)]; rewrite Ht; [reflexivity | ].
    cbn [filter]. destruct (is_due (now v + d) t); [ | reflexivity].
    cbn [flat_map]. unfold onTimeout. rewrite Hcap, Hav. reflexivity.
Qed.

Lemma liveness_timeout_disconnects_only_unavailable_agent_witness :
  (let v := mount false "connecting" 0 in
   snd (run (SessionStartedProp true :: map Advance [5000; 15000]%N) v)
     = [SetTimeout 0 20000;
        ToastAlert "Session ended" "Agent did not join the room. ";
        RoomDisconnect])
  /\ (let v1 := fst (step (SessionStartedProp true) (mount false "connecting" 0)) in
      let v2 := fst (step (Advance 5000) v1) in
      let v := fst (step (AgentStateChanged "listening") v2) in
      snd (step (Advance 20000) v) = []).
Proof.
  split.
  - intros v.
    destruct (liveness_timeout_disconnects_only_unavailable_agent
                v [5000; 15000]%N 0%N (reach_mount false "connecting" 0%N)) as [H _].
    destruct (H eq_refl eq_refl eq_refl) as [Hfire _].
    apply Hfire. vm_compute. discriminate.
  - intros v1 v2 v.
    refine (proj2 (proj2 (liveness_timeout_disconnects_only_unavailable_agent
                            v [] 20000%N _)) _).
    + apply reach_step, reach_step, reach_step, reach_mount.
    + reflexivity.
Defined.

(** C5, as stated, fails: every change of the agent state during the
    session clears the pending timeout and arms a fresh one.  Here the
    session arms three timeouts; 20 000 ms after its start the agent has
    never been available, yet nothing has fired, and the window now ends
    at 39 000 ms. *)
Lemma liveness_timeout_rearmed_within_session :
  let evs := [SessionStartedProp true; Advance 1000; AgentStateChanged "connecting";
              Advance 18000; AgentStateChanged "initializing"; Advance 1000] in
  let r := run evs (mount false "disconnected" 0) in
  snd r = [SetTimeout 0 20000;
           ClearTimeout 0; SetTimeout 1 20000;
           ClearTimeout 1; SetTimeout 2 20000]
  /\ arms (snd r) = 3
  /\ arms (snd r) <> 1
  /\ now (fst r) = 20000%N
  /\ disconnects (snd r) = false
  /\ timers (fst r) = [mkTimer 2 39000 "initializing"].
Proof.
  vm_compute. repeat split; discriminate.
Qed.

(** C5, amended.  At every moment at most one liveness timeout is
    pending, none while the session is not started or after unmount; the
    pending one closes over the current agent state and is due within
    20 000 ms.  It is armed when the session starts, and each change of the
    agent state during the session clears it and arms a fresh 20 000 ms
    timeout (a render with the same agent state does nothing); the end of
    the session and the unmount clear it. *)
Theorem liveness_timeout_single_pending_rearmed_on_change :
  forall (v : View) (a : AgentState),
    reachable v ->
    length (timers v) <= 1
    /\ (sessionStarted v = false \/ mounted v = false -> timers v = [])
    /\ (forall t, In t (timers v) ->
          t_agentState t = agentState v /\ (t_due t <= now v + LIVENESS_DELAY)%N)
    /\ (mounted v = true -> sessionStarted v = false ->
          step (SessionStartedProp true) v
            = (rearmed true (agentState v) v, [SetTimeout (nextId v) LIVENESS_DELAY]))
    /\ (mounted v = true -> sessionStarted v = true ->
        String.eqb a (agentState v) = false ->
          timers (fst (step (AgentStateChanged a) v))
            = [mkTimer (nextId v) (now v + LIVENESS_DELAY)%N a]
          /\ arms (snd (step (AgentStateChanged a) v)) = 1)
    /\ step (AgentStateChanged (agentState v)) v = (v, [])
    /\ timers (fst (step (SessionStartedProp false) v)) = []
    /\ timers (fst (step Unmount v)) = [].
Proof.
  intros v a Hr. pose proof (reachable_tracks v Hr) as Hinv.
  assert (Hoff : sessionStarted v = false \/ mounted v = false -> timers v = []).
  { destruct Hinv as [[Ht _] | (t & _ & _ & _ & Hs & Hm & _)]; [auto | ].
    intros [H | H]; congruence. }
  split; [ | split; [exact Hoff | split; [ | split; [ | split; [ | split; [ | split]]]]]].
  - destruct Hinv as [[Ht _] | (t & Ht & _)]; rewrite Ht; simpl; lia.
  - intros t Hin. destruct Hinv as [[Ht _] | (t' & Ht & _ & Hcap & _ & _ & Hdue)];
      rewrite Ht in Hin; simpl in Hin; [contradiction | ].
    destruct Hin as [<- | []]. split; [exact Hcap | lia].
  - intros Hm Hs. apply step_session_start; assumption.
  - intros Hm Hs Hne. cbn [step]. rewrite Hm.
    rewrite (rerender_changed (sessionStarted v) a v Hinv)
      by (rewrite Hne; apply andb_false_r).
    rewrite Hs. cbn [fst snd rearmed timers]. split; [reflexivity | ].
    destruct (cleanup v); reflexivity.
  - cbn [step]. unfold rerender. rewrite Bool.eqb_reflx, String.eqb_refl.
    destruct (mounted v); reflexivity.
  - cbn [step]. destruct (mounted v) eqn:Hm; [ | apply Hoff; right; reflexivity].
    destruct (sessionStarted v) eqn:Hs.
    + rewrite (rerender_changed false (agentState v) v Hinv) by (rewrite Hs; reflexivity).
      reflexivity.
    + unfold rerender. rewrite Hs, String.eqb_refl. simpl. apply Hoff; left; reflexivity.
  - cbn [step]. destruct (mounted v) eqn:Hm; [ | apply Hoff; right; reflexivity].
    destruct (runCleanup_clears v Hinv) as [Hv1 _].
    destruct (runCleanup v) as [v1 a1]. simpl in Hv1. subst v1. reflexivity.
Qed.

Lemma liveness_timeout_single_pending_rearmed_on_change_witness :
  let v1 := fst (step (SessionStartedProp true) (mount false "connecting" 0)) in
  let v := fst (step (Advance 15000) v1) in
  length (timers v) <= 1
  /\ timers (fst (step (AgentStateChanged "initializing") v))
     = [mkTimer 1 35000 "initializing"]
  /\ arms (snd (step (AgentStateChanged "initializing") v)) = 1.
Proof.
  intros v1 v.
  destruct (liveness_timeout_single_pending_rearmed_on_change v "initializing")
    as (H1 & _ & _ & _ & H5 & _).
  - apply reach_step, reach_step, reach_mount.
  - split; [exact H1 | ]. apply H5; reflexivity.
Defined.

End SessionViewClaims.

(* ================================================================= *)
(** ** More on the control bar *)

Section ControlBarMore.
Import ControlBar ControlBarUI.

Lemma find_first {A} (f : A -> bool) (l : list A) (x : A) :
  find f l = Some x ->
  exists before after,
    l = before ++ x :: after
    /\ f x = true
    /\ forallb (fun y => negb (f y)) before = true.
Proof.
  induction l as [ | y l IH]; simpl; [discriminate | ].
  destruct (f y) eqn:Hy.
  - intros [= ->]. exists [], l. simpl. auto.
  - intros Hfind. destruct (IH Hfind) as (before & after & -> & Hx & Hb).
    exists (y :: before), after. simpl. rewrite Hy, Hb. auto.
Qed.

(** The four ways a start or stop call can go, as one case analysis. *)
Lemma step_call_cases s ev :
  ev = CallStart \/ ev = CallStop ->
  (isLoading (hooks s) = true /\ step ev s = (s, []))
  \/ (isLoading (hooks s) = false /\ find_agent (room s) = None
      /\ step ev s = (s, [SetIsLoading true; no_agent_error; SetIsLoading false]))
  \/ (isLoading (hooks s) = false
      /\ exists agent,
           find_agent (room s) = Some agent
           /\ step ev s
              = (mkSys (mkHooks true (gameStarted (hooks s)) (selectedLanguage (hooks s))
                                (score (hooks s)))
                       (room s)
                       (inflight s
                          ++ [mkPending (request_of ev agent (hooks s))
                                        (match ev with CallStart => StartCont | _ => StopCont end)]),
                 [SetIsLoading true; PerformRpc (request_of ev agent (hooks s))])).
Proof.
  intros Hev. destruct (isLoading (hooks s)) eqn:Hl.
  - left. split; [reflexivity | ].
    destruct Hev as [-> | ->]; [apply step_start_busy | apply step_stop_busy]; assumption.
  - right. destruct (find_agent (room s)) as [agent | ] eqn:Ha.
    + right. split; [reflexivity | ]. exists agent. split; [reflexivity | ].
      destruct Hev as [-> | ->]; cbn [step].
      * rewrite (handleStartGame_dispatch _ _ agent _ Hl Ha). reflexivity.
      * rewrite (handleStopGame_dispatch _ _ agent _ Hl Ha). reflexivity.
    + left. split; [reflexivity | split; [reflexivity | ]].
      destruct Hev as [-> | ->];
        [apply step_start_no_agent | apply step_stop_no_agent]; assumption.
Qed.

(** X1.  A remote call is only ever addressed to a participant flagged as
    agent, and to the first such participant in the order of
    [room.remoteParticipants]; a start carries the selected language, a
    stop the empty payload. *)
Theorem rpc_addressed_to_first_agent :
  forall (s : Sys) (ev : Event) (req : RpcRequest),
    ev = CallStart \/ ev = CallStop ->
    In (PerformRpc req) (snd (step ev s)) ->
    exists before agent after,
      remoteParticipants (room s) = before ++ agent :: after
      /\ isAgent agent = true
      /\ forallb (fun p => negb (isAgent p)) before = true
      /\ req = request_of ev agent (hooks s).
Proof.
  intros s ev req Hev Hin.
  destruct (step_call_cases s ev Hev)
    as [[_ E] | [(_ & _ & E) | (_ & agent & Ha & E)]]; rewrite E in Hin; simpl in Hin.
  - contradiction.
  - destruct Hin as [H | [H | [H | []]]]; discriminate.
  - destruct Hin as [H | [H | []]]; [discriminate | ].
    injection H as <-.
    destruct (find_first _ _ _ Ha) as (before & after & Hl & Hag & Hb).
    exists before, agent, after. auto.
Qed.

Lemma rpc_addressed_to_first_agent_witness :
  exists before agent after,
    remoteParticipants sample_room = before ++ agent :: after
    /\ isAgent agent = true
    /\ forallb (fun p => negb (isAgent p)) before = true
    /\ mkRpc "agent-AJ_x7" "stop_game" "" = request_of CallStop agent initial_hooks.
Proof.
  apply (rpc_addressed_to_first_agent (mount sample_room) CallStop).
  - right; reflexivity.
  - simpl. right; left; reflexivity.
Defined.

(** X2.  A start or stop call dispatches a remote call exactly when no
    call is in flight and the room has an agent.  It never dispatches more
    than one, every dispatched call is recorded as in flight, and the busy
    flag is set while it is. *)
Theorem call_dispatches_iff_idle_with_agent :
  forall (s : Sys) (ev : Event),
    ev = CallStart \/ ev = CallStop ->
    let s' := fst (step ev s) in
    let acts := snd (step ev s) in
    (dispatches acts = true <->
       isLoading (hooks s) = false /\ find_agent (room s) <> None)
    /\ length (filter is_PerformRpc acts) <= 1
    /\ length (inflight s') = length (inflight s) + length (filter is_PerformRpc acts)
    /\ (dispatches acts = true -> isLoading (hooks s') = true).
Proof.
  intros s ev Hev. cbv zeta.
  destruct (step_call_cases s ev Hev)
    as [[Hl E] | [(Hl & Ha & E) | (Hl & agent & Ha & E)]]; rewrite E; simpl.
  - repeat split; try discriminate; try lia.
    intros [H _]; congruence.
  - repeat split; try discriminate; try lia.
    intros [_ H]; congruence.
  - rewrite length_app. simpl. repeat split; try lia; try congruence.
Qed.

Lemma call_dispatches_iff_idle_with_agent_witness :
  let s := mount sample_room in
  dispatches (snd (step CallStart s)) = true
  /\ length (inflight (fst (step CallStart s))) = 1.
Proof.
  intros s.
  destruct (call_dispatches_iff_idle_with_agent s CallStart (or_introl eq_refl))
    as (H1 & _ & H3 & _).
  split.
  - apply H1. split; [reflexivity | discriminate].
  - exact H3.
Defined.

(** X3.  However the call in flight settles (fulfilled or rejected), the
    busy flag is cleared, nothing is in flight any more and nothing is
    dispatched again; the next start in a room with an agent goes out. *)
Theorem settled_call_releases_controls :
  forall (s : Sys) (i : nat) (r : RpcResult),
    reachable s ->
    i < length (inflight s) ->
    let s' := fst (step (Settle i r) s) in
    isLoading (hooks s) = true
    /\ isLoading (hooks s') = false
    /\ inflight s' = []
    /\ dispatches (snd (step (Settle i r) s)) = false
    /\ (find_agent (room s') <> None -> dispatches (snd (step CallStart s')) = true).
Proof.
  intros s i r Hr Hi. cbv zeta.
  destruct (reachable_busy_tracks_inflight s Hr) as [_ [[_ Hin] | [Hl [p Hin]]]];
    rewrite Hin in Hi; simpl in Hi; [lia | ].
  assert (i = 0) by lia. subst i.
  assert (Hres : exists h a,
             step (Settle 0 r) s = (mkSys h (room s) [], a)
             /\ isLoading h = false /\ dispatches a = false).
  { cbn [step]. rewrite Hin. cbn [nth_error remove_nth].
    destruct p as [req [ | ]], r as [resp | e]; simpl;
      eexists; eexists; (split; [reflexivity | split; reflexivity]). }
  destruct Hres as (h & a & E & Hlh & Hd). rewrite E.
  cbn [fst snd hooks inflight room].
  split; [assumption | split; [assumption | split; [reflexivity | split; [assumption | ]]]].
  intros Hag.
  destruct (step_call_cases (mkSys h (room s) []) CallStart (or_introl eq_refl))
    as [[Hl' _] | [(_ & Ha' & _) | (_ & agent & _ & E')]].
  - simpl in Hl'. congruence.
  - simpl in Ha'. congruence.
  - rewrite E'. reflexivity.
Qed.

Lemma settled_call_releases_controls_witness :
  let s := fst (step CallStart (mount sample_room)) in
  let s' := fst (step (Settle 0 (Rejected "timeout")) s) in
  isLoading (hooks s') = false /\ inflight s' = [].
Proof.
  intros s s'.
  destruct (settled_call_releases_controls s 0 (Rejected "timeout")) as (_ & H2 & H3 & _).
  - apply reach_step, reach_mount.
  - simpl. lia.
  - split; assumption.
Defined.

Lemma In_remove_nth {A} (l : list A) : forall i x,
  In x (remove_nth i l) -> In x l.
Proof.
  induction l as [ | y l IH]; intros i x Hin.
  - destruct i; destruct Hin.
  - destruct i as [ | i]; simpl in Hin.
    + right; exact Hin.
    + destruct Hin as [-> | Hin]; [left; reflexivity | right; eapply IH; eassumption].
Qed.

Lemma resume_normal_keeps_language k r h :
  fst (fst (resume k r h)) = Normal
  /\ selectedLanguage (snd (fst (resume k r h))) = selectedLanguage h.
Proof. destruct k, r; simpl; split; reflexivity. Qed.

Lemma mount_pending_matches_selection r : pending_matches_selection (mount r).
Proof.
  unfold pending_matches_selection, mount.
  destruct (roomStateEffect_cases r initial_hooks) as [E | E]; rewrite E; simpl;
    (split; [tauto | intros p []]).
Qed.

Lemma step_pending_matches_selection ev s :
  call_matches_flag s ->
  pending_matches_selection s ->
  offered ev s = true ->
  pending_matches_selection (fst (step ev s)).
Proof.
  intros Hflag [Hlang Hpend] Hoff.
  destruct ev as [ | | i r | v | r].
  - (* start *)
    destruct (step_call_cases s CallStart (or_introl eq_refl))
      as [[_ E] | [(_ & _ & E) | (_ & agent & _ & E)]]; rewrite E; cbn [fst];
      [split; assumption | split; assumption | ].
    split; [exact Hlang | ]. cbn [hooks inflight selectedLanguage].
    intros p Hin. apply in_app_or in Hin as [Hin | [<- | []]]; [apply Hpend, Hin | ].
    simpl. auto.
  - (* stop *)
    destruct (step_call_cases s CallStop (or_intror eq_refl))
      as [[_ E] | [(_ & _ & E) | (_ & agent & _ & E)]]; rewrite E; cbn [fst];
      [split; assumption | split; assumption | ].
    split; [exact Hlang | ]. cbn [hooks inflight selectedLanguage].
    intros p Hin. apply in_app_or in Hin as [Hin | [<- | []]]; [apply Hpend, Hin | ].
    simpl. auto.
  - (* a call settles *)
    cbn [step]. destruct (nth_error (inflight s) i) as [p | ]; [ | split; assumption].
    destruct (resume_normal_keeps_language (p_cont p) r (hooks s)) as [Hc Hl].
    destruct (resume (p_cont p) r (hooks s)) as [[c h] a]. simpl in Hc, Hl. subst c.
    unfold pending_matches_selection.
    cbn [fst parked hooks inflight]. rewrite app_nil_r, Hl.
    split; [exact Hlang | ].
    intros q Hin. apply Hpend. eapply In_remove_nth; eassumption.
  - (* language chosen: nothing is in flight *)
    unfold offered in Hoff. apply andb_true_iff in Hoff as [Hoff Hv].
    apply andb_true_iff in Hoff as [_ Hl]. apply negb_true_iff, orb_false_iff in Hl as [Hl _].
    destruct Hflag as [[_ Hi] | [[Hl' _] | [Hl' _]]]; try congruence.
    split; cbn [step setSelectedLanguage fst hooks inflight selectedLanguage].
    + apply existsb_exists in Hv as (x & Hx & Heq). apply String.eqb_eq in Heq. subst x.
      exact Hx.
    + rewrite Hi. intros p [].
  - (* room changed *)
    rewrite (offered_room_keeps_hooks _ _ Hoff). split; assumption.
Qed.

Lemma playing_pending_matches_selection s :
  playing s -> pending_matches_selection s.
Proof.
  induction 1 as [r | s ev Hp IH Hoff].
  - apply mount_pending_matches_selection.
  - apply step_pending_matches_selection;
      [apply playing_call_matches_flag | | ]; assumption.
Qed.

(** X4.  Through the rendered controls the selected language is always one
    of the six values of [LANGUAGES], and so is the payload of every
    [start_game] call that goes out. *)
Theorem start_payload_is_listed_language :
  forall (s : Sys) (req : RpcRequest),
    playing s ->
    In (selectedLanguage (hooks s)) language_values
    /\ (In (PerformRpc req) (snd (step CallStart s)) ->
          method req = "start_game" /\ In (payload req) language_values).
Proof.
  intros s req Hp.
  destruct (playing_pending_matches_selection s Hp) as [Hlang _].
  split; [exact Hlang | ]. intros Hin.
  destruct (step_call_cases s CallStart (or_introl eq_refl))
    as [[_ E] | [(_ & _ & E) | (_ & agent & _ & E)]]; rewrite E in Hin; simpl in Hin.
  - contradiction.
  - destruct Hin as [H | [H | [H | []]]]; discriminate.
  - destruct Hin as [H | [H | []]]; [discriminate | ].
    injection H as <-. simpl. auto.
Qed.

Lemma start_payload_is_listed_language_witness :
  let s := fst (step (SelectLanguage "Italian") (mount sample_room)) in
  let req := mkRpc "agent-AJ_x7" "start_game" "Italian" in
  In (PerformRpc req) (snd (step CallStart s))
  /\ In (selectedLanguage (hooks s)) language_values
  /\ method req = "start_game"
  /\ In (payload req) language_values.
Proof.
  intros s req.
  assert (Hin : In (PerformRpc req) (snd (step CallStart s)))
    by (simpl; right; left; reflexivity).
  destruct (start_payload_is_listed_language s req) as [H1 H2].
  - apply playing_step; [apply playing_mount | reflexivity].
  - split; [exact Hin | split; [exact H1 | exact (H2 Hin)]].
Defined.

(** X5.  Through the rendered controls, the language shown as "Playing
    in ..." when a start completes is the payload that start was sent
    with, and no event changes the selected language while the game is
    active or a call is in flight. *)
Theorem language_shown_is_language_sent :
  forall (s : Sys) (ev : Event),
    playing s ->
    offered ev s = true ->
    (completes StartCont ev s = true ->
       exists i resp req,
         ev = Settle i (Resolved resp)
         /\ nth_error (inflight s) i = Some (mkPending req StartCont)
         /\ playingIn (hooks (fst (step ev s))) = Some (payload req))
    /\ (gameStarted (hooks s) = true \/ isLoading (hooks s) = true ->
          selectedLanguage (hooks (fst (step ev s))) = selectedLanguage (hooks s)).
Proof.
  intros s ev Hp Hoff.
  destruct (playing_pending_matches_selection s Hp) as [_ Hpend].
  split.
  - intros Hc. destruct ev as [ | | i [resp | e] | v | r]; try discriminate.
    simpl in Hc. destruct (nth_error (inflight s) i) as [[req k] | ] eqn:Hnth;
      [ | discriminate].
    destruct k; [ | discriminate].
    exists i, resp, req. split; [reflexivity | split; [exact Hnth | ]].
    pose proof (Hpend _ (nth_error_In _ _ Hnth)) as [_ Hpay]. simpl in Hpay.
    cbn [step]. rewrite Hnth. cbn [p_cont resume]. rewrite resumeStartGame_resolved.
    unfold playingIn. simpl. rewrite Hpay. reflexivity.
  - intros Hbusy. destruct (is_SelectLanguage ev) eqn:Hsel.
    + destruct ev; try discriminate. simpl in Hoff.
      destruct (gameStarted (hooks s)), (isLoading (hooks s));
        simpl in Hoff; try discriminate.
      destruct Hbusy; discriminate.
    + apply step_keeps_language, Hsel.
Qed.

Lemma language_shown_is_language_sent_witness :
  let s := fst (step CallStart (fst (step (SelectLanguage "German") (mount sample_room)))) in
  let ev := Settle 0 (Resolved "ok") in
  exists i resp req,
    ev = Settle i (Resolved resp)
    /\ nth_error (inflight s) i = Some (mkPending req StartCont)
    /\ playingIn (hooks (fst (step ev s))) = Some (payload req).
Proof.
  intros s ev.
  refine (proj1 (language_shown_is_language_sent s ev _ _) _).
  - apply playing_step; [apply playing_step; [apply playing_mount | ] | ]; reflexivity.
  - reflexivity.
  - reflexivity.
Defined.

(** X6.  When the room turns disconnected the effect sets the game
    inactive and the score to zero and touches nothing else: busy flag,
    language and the call in flight stay.  A start that is fulfilled after
    that still sets the game active, in the disconnected room. *)
Theorem disconnect_reset_keeps_call_in_flight :
  forall (s : Sys) (r : Room) (i : nat) (req : RpcRequest) (resp : string),
    String.eqb (state r) (state (room s)) = false ->
    state r = "disconnected" ->
    let s1 := fst (step (RoomChanged r) s) in
    let s2 := fst (step (Settle i (Resolved resp)) s1) in
    s1 = mkSys (mkHooks (isLoading (hooks s)) false (selectedLanguage (hooks s)) zero_score)
               r (inflight s)
    /\ snd (step (RoomChanged r) s) = [SetGameStarted false; SetScore zero_score]
    /\ (nth_error (inflight s) i = Some (mkPending req StartCont) ->
          gameStarted (hooks s2) = true /\ state (room s2) = "disconnected").
Proof.
  intros s r i req resp Hne Hd. cbv zeta.
  assert (E : step (RoomChanged r) s
              = (mkSys (mkHooks (isLoading (hooks s)) false (selectedLanguage (hooks s))
                                zero_score) r (inflight s),
                 [SetGameStarted false; SetScore zero_score])).
  { cbn [step]. rewrite Hne. unfold roomStateEffect. rewrite Hd. reflexivity. }
  rewrite E. cbn [fst snd].
  split; [reflexivity | split; [reflexivity | ]].
  intros Hnth. cbn [step inflight]. rewrite Hnth. cbn [p_cont resume].
  rewrite resumeStartGame_resolved. simpl. auto.
Qed.

Lemma disconnect_reset_keeps_call_in_flight_witness :
  let s := fst (step CallStart (mount sample_room)) in
  let s1 := fst (step (RoomChanged (mkRoom "disconnected" [])) s) in
  let s2 := fst (step (Settle 0 (Resolved "ok")) s1) in
  isLoading (hooks s1) = true
  /\ gameStarted (hooks s2) = true /\ state (room s2) = "disconnected".
Proof.
  intros s s1 s2.
  destruct (disconnect_reset_keeps_call_in_flight
              s (mkRoom "disconnected" []) 0
              (mkRpc "agent-AJ_x7" "start_game" "Portuguese") "ok" eq_refl eq_refl)
    as (H1 & _ & H3).
  split.
  - unfold s1. rewrite H1. reflexivity.
  - apply H3. reflexivity.
Defined.

(** X7.  Nothing ever raises the score, so in every reachable state the
    score box, when it is rendered, reads 0 / 0 with accuracy 0: the
    percentage is never computed, whatever the rounding does. *)
Theorem score_display_always_zero :
  forall (round_percent : N -> N -> N) (s : Sys),
    reachable s ->
    scoreDisplay round_percent (hooks s)
      = if gameStarted (hooks s) then Some (0, 0, 0)%N else None.
Proof.
  intros round_percent s Hr.
  destruct (reachable_busy_tracks_inflight s Hr) as [Hsc _].
  unfold scoreDisplay, accuracy. rewrite Hsc. reflexivity.
Qed.

Lemma score_display_always_zero_witness :
  let s := fst (step (Settle 0 (Resolved "ok")) (fst (step CallStart (mount sample_room)))) in
  scoreDisplay (fun c t => (c * 100 / t)%N) (hooks s) = Some (0, 0, 0)%N.
Proof.
  intros s.
  refine (eq_trans (score_display_always_zero _ s _) _).
  - apply reach_step, reach_step, reach_mount.
  - reflexivity.
Defined.

End ControlBarMore.

(* ================================================================= *)
(** ** More on the session view *)

Section SessionViewMore.
Import SessionView SessionTrace.

(** X8.  When the pending timeout falls due while the agent is neither
    available nor [connecting] (for instance [initializing], or still
    [disconnected]), the toast says that the agent connected but did not
    finish initializing, and the room is disconnected; the callback runs in
    the step that reaches the due time and not before. *)
Theorem timeout_reason_when_not_connecting :
  forall (v : View) (t : Timer) (ds : list N),
    reachable v ->
    timers v = [t] ->
    isAgentAvailable (agentState v) = false ->
    String.eqb (agentState v) "connecting" = false ->
    snd (run (map Advance ds) v)
      = if (t_due t <=? now v + total_time ds)%N
        then [ToastAlert "Session ended" "Agent connected but did not complete initializing. ";
              RoomDisconnect]
        else [].
Proof.
  intros v t ds Hr Ht Hav Hconn.
  destruct (reachable_tracks v Hr) as [[Ht0 _] | (t' & Ht' & _ & Hcap & _ & _ & Hdue)];
    [congruence | ].
  assert (t' = t) by congruence. subst t'.
  rewrite (run_advances_single ds v t Ht (proj1 Hdue)).
  unfold onTimeout. rewrite Hcap, Hav, Hconn. reflexivity.
Qed.

Lemma timeout_reason_when_not_connecting_witness :
  let v := fst (step (SessionStartedProp true) (mount false "disconnected" 0)) in
  snd (run (map Advance [12000; 8000]%N) v)
    = [ToastAlert "Session ended" "Agent connected but did not complete initializing. ";
       RoomDisconnect].
Proof.
  intros v.
  refine (eq_trans (timeout_reason_when_not_connecting
                      v (mkTimer 0 20000 "disconnected") [12000; 8000]%N _ _ _ _) _).
  - apply reach_step, reach_mount.
  - reflexivity.
  - reflexivity.
  - reflexivity.
  - reflexivity.
Defined.

Lemma step_quiet ev v :
  timer_tracks_render v ->
  mounted v = false \/ (sessionStarted v = false /\ is_session_start ev = false) ->
  snd (step ev v) = []
  /\ timers (fst (step ev v)) = []
  /\ (mounted v = false -> mounted (fst (step ev v)) = false)
  /\ (mounted (fst (step ev v)) = true -> sessionStarted (fst (step ev v)) = false).
Proof.
  intros Hinv Hq.
  assert (Hidle : timers v = [] /\ (sessionStarted v = false -> cleanup v = None)).
  { destruct Hinv as [H | (t & _ & _ & _ & Hs & Hm & _)]; [exact H | ].
    destruct Hq as [Hq | [Hq _]]; congruence. }
  destruct Hidle as [Ht Hc].
  destruct Hq as [Hm | [Hs Hev]].
  - destruct ev as [b | a | d | ]; cbn [step]; rewrite ?Hm; simpl;
      rewrite ?Ht; repeat split; auto; congruence.
  - destruct (mounted v) eqn:Hm.
    + destruct ev as [[ | ] | a | d | ]; try discriminate; cbn [step]; rewrite ?Hm.
      * unfold rerender. rewrite Hs, String.eqb_refl. simpl.
        repeat split; auto; congruence.
      * destruct (String.eqb a (agentState v)) eqn:Ha.
        -- unfold rerender. rewrite Bool.eqb_reflx, Ha. simpl.
           repeat split; auto; congruence.
        -- rewrite (rerender_changed _ _ _ Hinv)
             by (rewrite Bool.eqb_reflx, Ha; reflexivity).
           rewrite (Hc Hs), Hs. simpl. repeat split; auto; congruence.
      * unfold advance. simpl. rewrite Ht. simpl. repeat split; auto; congruence.
      * unfold runCleanup. rewrite (Hc Hs). simpl. repeat split; auto; congruence.
    + destruct ev as [b | a | d | ]; cbn [step]; rewrite ?Hm; simpl;
        rewrite ?Ht; repeat split; auto; congruence.
Qed.

(** X9.  No dangling timer: after the component is unmounted, or while the
    session is not started (until a render starts it), no run of events
    produces anything: no timeout is armed, no callback runs, no toast is
    raised and the room is not disconnected. *)
Theorem no_timeout_outside_session :
  forall (v : View) (evs : list Event),
    reachable v ->
    mounted v = false
    \/ (sessionStarted v = false /\ existsb is_session_start evs = false) ->
    snd (run evs v) = [] /\ timers (fst (run evs v)) = [].
Proof.
  intros v evs Hr. pose proof (reachable_tracks v Hr) as Hinv. clear Hr.
  revert v Hinv. induction evs as [ | ev evs IH]; intros v Hinv Hq.
  - simpl. split; [reflexivity | ].
    destruct Hinv as [[Ht _] | (t & _ & _ & _ & Hs & Hm & _)]; [exact Ht | ].
    destruct Hq as [Hq | [Hq _]]; congruence.
  - assert (Hq1 : mounted v = false
                  \/ (sessionStarted v = false /\ is_session_start ev = false)).
    { destruct Hq as [Hq | [Hs Hev]]; [left; exact Hq | right].
      simpl in Hev. apply orb_false_iff in Hev as [Hev _]. auto. }
    destruct (step_quiet ev v Hinv Hq1) as (Ha & _ & Hm' & Hs').
    pose proof (step_tracks ev v Hinv) as Hinv1.
    cbn [run]. destruct (step ev v) as [v1 a1]. simpl in Ha, Hm', Hs', Hinv1. subst a1.
    assert (Hq2 : mounted v1 = false
                  \/ (sessionStarted v1 = false /\ existsb is_session_start evs = false)).
    { destruct (mounted v1) eqn:Hm1; [right | left; reflexivity].
      split; [apply Hs'; reflexivity | ].
      destruct Hq as [Hq | [_ Hev]]; [specialize (Hm' Hq); discriminate | ].
      simpl in Hev. apply orb_false_iff in Hev as [_ Hev]. exact Hev. }
    specialize (IH v1 Hinv1 Hq2).
    destruct (run evs v1) as [v2 a2]. simpl in *. exact IH.
Qed.

Lemma no_timeout_outside_session_witness :
  let v1 := fst (step (SessionStartedProp true) (mount false "connecting" 0)) in
  let v := fst (step (SessionStartedProp false) v1) in
  snd (run [Advance 25000; AgentStateChanged "initializing"; Advance 25000] v) = [].
Proof.
  intros v1 v.
  refine (proj1 (no_timeout_outside_session
                   v [Advance 25000; AgentStateChanged "initializing"; Advance 25000] _ _)).
  - apply reach_step, reach_step, reach_mount.
  - right. split; reflexivity.
Defined.

Lemma count_disconnects_app a b :
  count_disconnects (a ++ b) = count_disconnects a + count_disconnects b.
Proof. unfold count_disconnects. rewrite filter_app, length_app. reflexivity. Qed.

Lemma count_toasts_app a b :
  count_toasts (a ++ b) = count_toasts a + count_toasts b.
Proof. unfold count_toasts. rewrite filter_app, length_app. reflexivity. Qed.

Lemma arms_app a b : arms (a ++ b) = arms a + arms b.
Proof. unfold arms. rewrite filter_app, length_app. reflexivity. Qed.

Lemma onTimeout_counts a :
  count_disconnects (onTimeout a) <= 1
  /\ count_toasts (onTimeout a) = count_disconnects (onTimeout a)
  /\ arms (onTimeout a) = 0.
Proof.
  unfold onTimeout, count_disconnects, count_toasts, arms.
  destruct (isAgentAvailable a); simpl.
  - repeat split; lia.
  - destruct (String.eqb a "connecting"); simpl; repeat split; lia.
Qed.

Lemma clear_counts (c : option nat) :
  let acts := match c with Some id => [ClearTimeout id] | None => [] end in
  count_disconnects acts = 0 /\ count_toasts acts = 0 /\ arms acts = 0.
Proof. destruct c; repeat split. Qed.

(** One step never disconnects more often than a pending timeout is used
    up, and every disconnect comes with its toast. *)
Lemma step_counts ev v :
  timer_tracks_render v ->
  let acts := snd (step ev v) in
  count_disconnects acts + length (timers (fst (step ev v)))
    <= arms acts + length (timers v)
  /\ count_toasts acts = count_disconnects acts.
Proof.
  intros Hinv.
  assert (Hrerender : forall started a,
    let acts := snd (rerender started a v) in
    count_disconnects acts + length (timers (fst (rerender started a v)))
      <= arms acts + length (timers v)
    /\ count_toasts acts = count_disconnects acts).
  { intros started a.
    destruct (Bool.eqb started (sessionStarted v) && String.eqb a (agentState v)) eqn:Hdeps.
    - unfold rerender. rewrite Hdeps. simpl. split; [lia | reflexivity].
    - rewrite (rerender_changed _ _ _ Hinv Hdeps). cbn [fst snd].
      rewrite count_disconnects_app, count_toasts_app, arms_app.
      destruct (clear_counts (cleanup v)) as (-> & -> & ->).
      unfold rearmed, count_disconnects, count_toasts, arms.
      destruct started; simpl; split; lia. }
  destruct ev as [b | a | d | ]; cbn [step].
  - destruct (mounted v); [apply Hrerender | simpl; split; [lia | reflexivity]].
  - destruct (mounted v); [apply Hrerender | simpl; split; [lia | reflexivity]].
  - unfold advance. cbn [fst snd timers].
    destruct Hinv as [[Ht _] | (t & Ht & _)]; rewrite Ht; simpl.
    + split; [lia | reflexivity].
    + destruct (is_due (now v + d) t); simpl.
      * rewrite app_nil_r. destruct (onTimeout_counts (t_agentState t)) as (H1 & H2 & H3).
        rewrite H3. split; [lia | exact H2].
      * split; [lia | reflexivity].
  - destruct (mounted v); [ | simpl; split; [lia | reflexivity]].
    destruct (runCleanup_clears v Hinv) as [Hv1 Ha1].
    destruct (runCleanup v) as [v1 a1]. simpl in Hv1, Ha1. subst v1 a1. cbn [fst snd timers].
    destruct (clear_counts (cleanup v)) as (-> & -> & ->). simpl. split; lia.
Qed.

(** X10.  Over any run, the forced disconnects are at most as many as the
    timeouts armed in the run plus the one that may have been pending at
    its start: a timeout disconnects the room at most once.  Every forced
    disconnect comes with exactly one toast. *)
Theorem each_timeout_disconnects_at_most_once :
  forall (v : View) (evs : list Event),
    reachable v ->
    let acts := snd (run evs v) in
    count_disconnects acts <= arms acts + length (timers v)
    /\ length (timers v) <= 1
    /\ count_toasts acts = count_disconnects acts.
Proof.
  intros v evs Hr. pose proof (reachable_tracks v Hr) as Hinv. clear Hr. cbv zeta.
  assert (Hlen : length (timers v) <= 1).
  { destruct Hinv as [[Ht _] | (t & Ht & _)]; rewrite Ht; simpl; lia. }
  split; [ | split; [exact Hlen | ]]; clear Hlen; revert v Hinv.
  - assert (Hgen : forall v, timer_tracks_render v ->
              count_disconnects (snd (run evs v)) + length (timers (fst (run evs v)))
                <= arms (snd (run evs v)) + length (timers v)).
    { induction evs as [ | ev evs IH]; intros v Hinv; [simpl; lia | ].
      destruct (step_counts ev v Hinv) as [Hstep _].
      pose proof (step_tracks ev v Hinv) as Hinv1.
      cbn [run]. destruct (step ev v) as [v1 a1]. cbn [fst snd] in Hstep, Hinv1.
      specialize (IH v1 Hinv1). destruct (run evs v1) as [v2 a2]. cbn [fst snd] in *.
      rewrite count_disconnects_app, arms_app. lia. }
    intros v Hinv. specialize (Hgen v Hinv). lia.
  - induction evs as [ | ev evs IH]; intros v Hinv; [reflexivity | ].
    destruct (step_counts ev v Hinv) as [_ Hstep].
    pose proof (step_tracks ev v Hinv) as Hinv1.
    cbn [run]. destruct (step ev v) as [v1 a1]. cbn [fst snd] in Hstep, Hinv1.
    specialize (IH v1 Hinv1). destruct (run evs v1) as [v2 a2]. cbn [fst snd] in *.
    rewrite count_disconnects_app, count_toasts_app. lia.
Qed.

Lemma each_timeout_disconnects_at_most_once_witness :
  let v := mount true "connecting" 0 in
  let acts := snd (run [Advance 30000; Advance 30000; AgentStateChanged "initializing";
                        Advance 30000] v) in
  count_disconnects acts <= arms acts + length (timers v).
Proof.
  intros v acts.
  exact (proj1 (each_timeout_disconnects_at_most_once
                  v [Advance 30000; Advance 30000; AgentStateChanged "initializing";
                     Advance 30000]%N (reach_mount true "connecting" 0%N))).
Defined.

(** What a step of the view does to its mounted flag and its prop. *)
Lemma view_step_fields ev v :
  if mounted v then
    mounted (fst (step ev v)) = match ev with Unmount => false | _ => true end
    /\ sessionStarted (fst (step ev v))
       = match ev with SessionStartedProp b => b | _ => sessionStarted v end
  else fst (step ev v) = v \/ exists d, ev = Advance d.
Proof.
  assert (Hclean : mounted (fst (runCleanup v)) = mounted v
                   /\ sessionStarted (fst (runCleanup v)) = sessionStarted v
                   /\ agentState (fst (runCleanup v)) = agentState v)
    by (unfold runCleanup; destruct (cleanup v); simpl; auto).
  assert (Hre : forall started a,
            mounted (fst (rerender started a v)) = mounted v
            /\ sessionStarted (fst (rerender started a v)) = started).
  { intros started a. unfold rerender.
    destruct (Bool.eqb started (sessionStarted v) && String.eqb a (agentState v)) eqn:Hd.
    - apply andb_true_iff in Hd as [Hd _]. apply Bool.eqb_prop in Hd. simpl. auto.
    - destruct Hclean as (Hc1 & _).
      destruct (runCleanup v) as [v1 a1]. simpl in Hc1. unfold effect. simpl.
      destruct started; simpl; auto. }
  destruct (mounted v) eqn:Hm.
  - destruct ev as [b | a | d | ]; cbn [step]; rewrite ?Hm.
    + destruct (Hre b (agentState v)) as [H1 H2]. split; congruence.
    + destruct (Hre (sessionStarted v) a) as [H1 H2]. split; congruence.
    + simpl. auto.
    + destruct Hclean as (_ & Hc2 & _). destruct (runCleanup v) as [v1 a1]. simpl in *. auto.
  - destruct ev as [b | a | d | ]; cbn [step]; rewrite ?Hm; eauto.
Qed.

End SessionViewMore.

(* ================================================================= *)
(** ** Properties of the application shell *)

Section AppFacts.
Import App.

Lemma set_true_length i : forall l, length (set_true i l) = length l.
Proof.
  induction i as [ | i IH]; intros [ | b l]; simpl; auto.
Qed.

Lemma set_true_nth i : forall l j,
  j < length l ->
  nth j (set_true i l) false = Nat.eqb j i || nth j l false.
Proof.
  induction i as [ | i IH]; intros [ | b l] j Hj; simpl in *; try lia.
  - destruct j; reflexivity.
  - destruct j as [ | j]; [reflexivity | ]. simpl. apply IH. lia.
Qed.

Lemma commit_written_out old s :
  commit old s = (committed old s, commit_log old s).
Proof.
  unfold commit, committed, commit_log, seq, connect_starts.
  destruct (listen_changed old s), (connect_changed old s);
    unfold listenCleanup, connectCleanup, listenEffect, connectEffect, skip;
    destruct s as [m ss au pre rf df li rs ab [run | ] att]; simpl;
    rewrite ?set_true_length, ?app_nil_r;
    try reflexivity;
    destruct (ss && String.eqb rs "disconnected"); reflexivity.
Qed.

(** Cleaning up the current run and running the effect again keeps the
    runs consistent. *)
Lemma rerun_consistent (ab : list bool) (run : nat) (att extra : list Attempt) :
  (forall j, j < length ab -> (nth j ab false = false <-> Some run = Some j)) ->
  S run = length ab ->
  (forall a, In a att -> a_run a < length ab) ->
  NoDup (map a_run att) ->
  extra = [] \/ extra = [mkAttempt (length ab) false false] ->
  let ab' := set_true run ab ++ [false] in
  (forall j, j < length ab' -> (nth j ab' false = false <-> Some (length ab) = Some j))
  /\ S (length ab) = length ab'
  /\ (forall a, In a (att ++ extra) -> a_run a < length ab')
  /\ NoDup (map a_run (att ++ extra))
  /\ (forall a, In a (att ++ extra) -> Some (length ab) = Some (a_run a) -> In a extra).
Proof.
  intros H1 H2 H3 H4 Hextra ab'.
  assert (Hlen : length ab' = S (length ab)).
  { unfold ab'. rewrite length_app, set_true_length. simpl. lia. }
  assert (Hall : forall j, j < length ab -> nth j (set_true run ab) false = true).
  { intros j Hj. rewrite set_true_nth by exact Hj.
    destruct (Nat.eqb_spec j run) as [-> | Hne]; [reflexivity | ]. simpl.
    destruct (nth j ab false) eqn:Hn; [reflexivity | ].
    apply (H1 j Hj) in Hn. congruence. }
  split; [ | split; [ | split; [ | split]]].
  - intros j Hj. split.
    + intros Hn. f_equal. destruct (Nat.lt_ge_cases j (length ab)) as [Hlt | Hge]; [ | lia].
      unfold ab' in Hn. rewrite app_nth1 in Hn by (rewrite set_true_length; exact Hlt).
      rewrite (Hall j Hlt) in Hn. discriminate.
    + intros [= <-]. unfold ab'.
      rewrite app_nth2 by (rewrite set_true_length; lia).
      rewrite set_true_length, Nat.sub_diag. reflexivity.
  - lia.
  - intros a Hin. rewrite Hlen. apply in_app_or in Hin as [Hin | Hin].
    + specialize (H3 a Hin). lia.
    + destruct Hextra as [-> | ->]; [destruct Hin | ].
      destruct Hin as [<- | []]. simpl. lia.
  - rewrite map_app. destruct Hextra as [-> | ->]; simpl.
    + rewrite app_nil_r. exact H4.
    + apply NoDup_app; [exact H4 | repeat constructor; intros [] | ].
      intros x Hx [<- | []]. apply in_map_iff in Hx as (a & Ha & Hin).
      specialize (H3 a Hin). lia.
  - intros a Hin [= Heq]. apply in_app_or in Hin as [Hin | Hin]; [ | exact Hin].
    specialize (H3 a Hin). lia.
Qed.

Lemma committed_settled old s :
  runs_consistent s ->
  mounted s = true ->
  current s <> None ->
  listener s = Some (d_refresh old) ->
  (connect_changed old s = false ->
     forall a, In a (attempts s) -> current s = Some (a_run a) -> sessionStarted s = true) ->
  (sessionStarted s = true -> audioStarted s = true) ->
  settled_state (committed old s).
Proof.
  intros (H1 & H2 & H3 & H4) Hm Hcur Hli Hatt Haud.
  assert (Hlistener :
    (if listen_changed old s then Some (refreshConnectionDetails s) else listener s)
    = Some (refreshConnectionDetails s)).
  { unfold listen_changed. destruct (Nat.eqb_spec (d_refresh old) (refreshConnectionDetails s));
      simpl; [congruence | reflexivity]. }
  destruct (current s) as [run | ] eqn:Hc; [clear Hcur | congruence].
  destruct (H2 run eq_refl) as [Hrun _].
  unfold settled_state, runs_consistent, committed. rewrite Hc.
  destruct (connect_changed old s) eqn:Hcc;
    cbn [mounted sessionStarted audioStarted refreshConnectionDetails listener
         aborted current attempts andb].
  - set (extra := if connect_starts s
                  then [mkAttempt (length (aborted s)) false false] else []).
    assert (Hextra : extra = [] \/ extra = [mkAttempt (length (aborted s)) false false])
      by (unfold extra; destruct (connect_starts s); auto).
    assert (Hatt' : (if connect_starts s
                     then attempts s ++ [mkAttempt (length (aborted s)) false false]
                     else attempts s) = attempts s ++ extra)
      by (unfold extra; destruct (connect_starts s); [reflexivity | rewrite app_nil_r; reflexivity]).
    rewrite Hatt'.
    destruct (rerun_consistent (aborted s) run (attempts s) extra H1 Hrun H3 H4 Hextra)
      as (R1 & R2 & R3 & R4 & R5).
    split; [split; [exact R1 | split; [ | split; [exact R3 | exact R4]]] | ].
    + intros r [= <-]. split; [exact R2 | exact Hm].
    + split; [discriminate | split; [intros _; exact Hlistener | split; [ | exact Haud]]].
      intros a Hin Heq. specialize (R5 a Hin Heq).
      unfold extra, connect_starts in R5.
      destruct (sessionStarted s); [reflexivity | destruct R5].
  - split; [split; [exact H1 | split; [exact H2 | split; [exact H3 | exact H4]]] | ].
    split; [discriminate | split; [intros _; exact Hlistener | split; [ | exact Haud]]].
    apply Hatt. reflexivity.
Qed.

Lemma step_handled ev s s1 pre :
  mounted s = true ->
  listener s = Some (refreshConnectionDetails s) ->
  handled ev s = Some (s1, pre) ->
  step ev s = (committed (deps_of s) s1, pre ++ commit_log (deps_of s) s1).
Proof.
  intros Hm Hli Hh.
  destruct ev as [ | | [ | ] name message | st | p rf df | i u t | i n m | i | ];
    try discriminate; injection Hh as <- <-;
    unfold step; rewrite Hm, ?Hli;
    unfold seq, onStartGame, startAudio, onDisconnected, seq,
      setSessionStarted, setAudioStarted, withProps, emit, rendered;
    cbn [fst snd]; rewrite commit_written_out; reflexivity.
Qed.

Lemma handled_rendered ev s s1 pre :
  handled ev s = Some (s1, pre) ->
  exists ss au p rf df,
    s1 = rendered ss au p rf df s
    /\ ((sessionStarted s = true -> audioStarted s = true) -> ss = true -> au = true).
Proof.
  intros Hh.
  destruct ev as [ | | [ | ] name message | st | p rf df | i u t | i n m | i | ];
    try discriminate; injection Hh as <- <-;
    do 5 eexists; (split; [reflexivity | ]); auto; discriminate.
Qed.

Lemma connect_unchanged_session old s :
  connect_changed old s = false -> sessionStarted s = d_sessionStarted old.
Proof.
  unfold connect_changed. intros H. apply negb_false_iff in H.
  apply andb_true_iff in H as [H _]. apply andb_true_iff in H as [H _].
  apply Bool.eqb_prop in H. congruence.
Qed.

Lemma replace_nth_runs (l : list Attempt) : forall i a c st,
  nth_error l i = Some a ->
  map a_run (replace_nth i (mkAttempt (a_run a) c st) l) = map a_run l.
Proof.
  induction l as [ | x l IH]; intros [ | i] a c st H; simpl in *; try discriminate.
  - injection H as ->. reflexivity.
  - f_equal. apply IH, H.
Qed.

Lemma In_replace_nth {A} (l : list A) : forall i x y,
  In y (replace_nth i x l) -> y = x \/ In y l.
Proof.
  induction l as [ | z l IH]; intros [ | i] x y H; simpl in *; try contradiction.
  - destruct H as [<- | H]; auto.
  - destruct H as [<- | H]; auto. destruct (IH _ _ _ H); auto.
Qed.

(** Marking a chain keeps the invariant: it still belongs to the same run. *)
Lemma marked_settled s i a c st :
  settled_state s ->
  nth_error (attempts s) i = Some a ->
  settled_state (fst (withAttempts (replace_nth i (mkAttempt (a_run a) c st) (attempts s)) s)).
Proof.
  intros ((H1 & H2 & H3 & H4) & Hcur & Hli & Hatt & Haud) Hnth.
  pose proof (nth_error_In _ _ Hnth) as Hin.
  unfold settled_state, runs_consistent, withAttempts.
  cbn [fst mounted sessionStarted audioStarted refreshConnectionDetails listener
       aborted current attempts].
  rewrite (replace_nth_runs _ _ _ _ _ Hnth).
  split; [split; [exact H1 | split; [exact H2 | split; [ | exact H4]]] | ].
  - intros a' Ha'. apply In_replace_nth in Ha' as [-> | Ha']; [apply (H3 a Hin) | apply H3, Ha'].
  - split; [exact Hcur | split; [exact Hli | split; [ | exact Haud]]].
    intros a' Ha'. apply In_replace_nth in Ha' as [-> | Ha']; [apply (Hatt a Hin) | apply Hatt, Ha'].
Qed.

Lemma step_settled ev s :
  settled_state s -> settled_state (fst (step ev s)).
Proof.
  intros Hinv.
  destruct (handled ev s) as [[s1 pre] | ] eqn:Hh.
  - (* a handler that renders *)
    destruct (mounted s) eqn:Hm.
    + destruct Hinv as (Hrc & Hcur & Hli & Hatt & Haud).
      rewrite (step_handled ev s s1 pre Hm (Hli Hm) Hh). cbn [fst].
      destruct (handled_rendered ev s s1 pre Hh) as (ss & au & p & rf & df & -> & Haud').
      apply committed_settled; cbn [rendered mounted listener current attempts aborted
                                   sessionStarted audioStarted d_refresh deps_of].
      * exact Hrc.
      * exact Hm.
      * exact (Hcur Hm).
      * exact (Hli Hm).
      * intros Hcc a Hin Hc. apply connect_unchanged_session in Hcc. simpl in Hcc.
        rewrite Hcc. exact (Hatt a Hin Hc).
      * exact (Haud' Haud).
    + destruct ev as [ | | [ | ] name message | st | p rf df | i u t | i n m | i | ];
        try discriminate; unfold step; rewrite Hm; exact Hinv.
  - destruct ev as [ | | [ | ] name message | st | p rf df | i u t | i n m | i | ];
      try discriminate; unfold step.
    + (* media devices error *)
      destruct (mounted s); [ | exact Hinv].
      destruct (listener s); exact Hinv.
    + (* room state *)
      exact Hinv.
    + (* details arrive *)
      unfold settle. destruct (nth_error (attempts s) i) as [a | ] eqn:Hnth; [ | exact Hinv].
      destruct (a_connecting a); [exact Hinv | ].
      unfold seq, emit.
      pose proof (marked_settled s i a true (a_settled a) Hinv Hnth) as H.
      destruct (withAttempts _ s) as [s2 a2]. exact H.
    + (* a part rejects *)
      unfold settle. destruct (nth_error (attempts s) i) as [a | ] eqn:Hnth; [ | exact Hinv].
      destruct (a_settled a); [exact Hinv | ].
      unfold seq, onConnectError.
      pose proof (marked_settled s i a (a_connecting a) true Hinv Hnth) as H.
      destruct (withAttempts _ s) as [s2 a2]. cbn [fst] in H.
      destruct (nth (a_run a) (aborted s2) false); exact H.
    + (* the chain is fulfilled *)
      unfold settle. destruct (nth_error (attempts s) i) as [a | ] eqn:Hnth; [ | exact Hinv].
      destruct (a_connecting a && negb (a_settled a)); [ | exact Hinv].
      apply (marked_settled s i a true true Hinv Hnth).
    + (* unmount *)
      destruct (mounted s) eqn:Hm; [ | exact Hinv].
      destruct Hinv as ((H1 & H2 & H3 & H4) & Hcur & Hli & Hatt & Haud).
      destruct (current s) as [run | ] eqn:Hc; [ | exfalso; apply (Hcur Hm); reflexivity].
      unfold seq, listenCleanup, connectCleanup, unmounted. cbn [current]. rewrite Hc.
      unfold settled_state, runs_consistent.
      cbn [fst mounted sessionStarted audioStarted refreshConnectionDetails listener
           aborted current attempts].
      rewrite set_true_length.
      split; [split; [ | split; [discriminate | split; [exact H3 | exact H4]]] | ].
      * intros j Hj. rewrite set_true_nth by exact Hj.
        split; [ | discriminate]. intros Hn. apply orb_false_iff in Hn as [Hne Hn].
        apply (H1 j Hj) in Hn. injection Hn as ->. rewrite Nat.eqb_refl in Hne. discriminate.
      * split; [discriminate | split; [discriminate | split; [discriminate | exact Haud]]].
Qed.

Lemma mount_settled pre rf df st : settled_state (mount pre rf df st).
Proof.
  unfold mount, seq, listenEffect, connectEffect, settled_state, runs_consistent. simpl.
  split; [split; [ | split; [ | split; [intros a [] | constructor]]] | ].
  - intros [ | j] Hj; [split; reflexivity | lia].
  - intros run [= <-]. split; reflexivity.
  - split; [discriminate | split; [reflexivity | split; [intros a [] | discriminate]]].
Qed.

Lemma reachable_settled s : reachable s -> settled_state s.
Proof.
  induction 1 as [pre rf df st | s ev _ IH].
  - apply mount_settled.
  - apply step_settled, IH.
Qed.

End AppFacts.

Section AppClaims.
Import App.

Lemma nth_error_replace_nth {A} (l : list A) : forall i x y,
  nth_error l i = Some y -> nth_error (replace_nth i x l) i = Some x.
Proof.
  induction l as [ | z l IH]; intros [ | i] x y H; simpl in *; try discriminate; eauto.
Qed.

Lemma replace_nth_length {A} (l : list A) : forall i x,
  length (replace_nth i x l) = length l.
Proof.
  induction l as [ | z l IH]; intros [ | i] x; simpl; auto.
Qed.

(** When the rejection of a chain raises the toast. *)
Lemma rejected_cases s i name message :
  settled_state s ->
  (snd (step (AttemptRejected i name message) s) = [connect_error_toast name message]
   /\ exists a,
        nth_error (attempts s) i = Some a
        /\ a_settled a = false
        /\ current s = Some (a_run a)
        /\ fst (step (AttemptRejected i name message) s)
           = fst (withAttempts
                    (replace_nth i (mkAttempt (a_run a) (a_connecting a) true) (attempts s)) s))
  \/ (snd (step (AttemptRejected i name message) s) = []
      /\ forall a,
           nth_error (attempts s) i = Some a ->
           a_settled a = false ->
           current s <> Some (a_run a)).
Proof.
  intros ((H1 & _ & H3 & _) & _).
  unfold step, settle.
  destruct (nth_error (attempts s) i) as [a | ] eqn:Hnth; [ | right; split; [reflexivity | discriminate]].
  destruct (a_settled a) eqn:Hs; [right; split; [reflexivity | ]; intros a' [= <-]; congruence | ].
  pose proof (H3 a (nth_error_In _ _ Hnth)) as Hlt.
  unfold seq, withAttempts, onConnectError. cbn [fst snd aborted app].
  destruct (nth (a_run a) (aborted s) false) eqn:Hn.
  - right. split; [reflexivity | ]. intros a' [= <-] _ Hc.
    apply (H1 _ Hlt) in Hc. congruence.
  - left. split; [reflexivity | ]. exists a.
    split; [reflexivity | split; [exact Hs | split; [ | reflexivity]]].
    apply (H1 _ Hlt). exact Hn.
Qed.

(** X11.  Audio is started by the same click that starts the session and
    is never stopped, so in every reachable state the session being
    started implies audio being started: the Enable Audio button, rendered
    under [!audioStarted && sessionStarted], is never rendered. *)
Theorem enable_audio_button_never_rendered :
  forall s : State,
    reachable s ->
    (sessionStarted s = true -> audioStarted s = true)
    /\ enableAudioShown s = false.
Proof.
  intros s Hr. destruct (reachable_settled s Hr) as (_ & _ & _ & _ & Haud).
  split; [exact Haud | ]. unfold enableAudioShown.
  destruct (sessionStarted s); [rewrite (Haud eq_refl); reflexivity | apply andb_false_r].
Qed.

Lemma enable_audio_button_never_rendered_witness :
  let s := fst (step OnStartGame (mount false 0 0 "disconnected")) in
  sessionStarted s = true /\ enableAudioShown s = false.
Proof.
  intros s. split; [reflexivity | ].
  apply enable_audio_button_never_rendered. apply reach_step, reach_mount.
Defined.

(** X12.  A failed connection attempt raises the toast "There was an error
    connecting to the agent" only if it was started by the run of the
    connect effect that is still in force, hence only while the component
    is mounted and the session started, and at most once: the attempts of
    earlier runs fail silently, and so does a second rejection. *)
Theorem connect_error_reported_for_current_run_only :
  forall (s : State) (i : nat) (name message : string),
    reachable s ->
    let r := step (AttemptRejected i name message) s in
    (snd r = [] \/ snd r = [connect_error_toast name message])
    /\ (snd r <> [] ->
          mounted s = true /\ sessionStarted s = true
          /\ exists a, nth_error (attempts s) i = Some a
                       /\ a_settled a = false /\ current s = Some (a_run a))
    /\ (forall name' message',
          snd (step (AttemptRejected i name' message') (fst r)) = []).
Proof.
  intros s i name message Hr. cbv zeta.
  pose proof (reachable_settled s Hr) as Hinv.
  destruct Hinv as ((H1 & H2 & H3 & H4) & Hcur & Hli & Hatt & Haud) eqn:Hdes. clear Hdes.
  destruct (rejected_cases s i name message Hinv)
    as [(E & a & Hnth & Hs & Hc & Est) | (E & Hno)]; rewrite E.
  - split; [right; reflexivity | split].
    + intros _. split; [apply (H2 _ Hc) | split].
      * apply (Hatt a (nth_error_In _ _ Hnth) Hc).
      * exists a. auto.
    + intros name' message'. rewrite Est. unfold step, settle, withAttempts.
      cbn [fst attempts].
      rewrite (nth_error_replace_nth _ _ _ _ Hnth). reflexivity.
  - split; [left; reflexivity | split; [intros H; contradiction | ]].
    intros name' message'.
    assert (Hst : fst (step (AttemptRejected i name message) s) = s
                  \/ exists a, nth_error (attempts s) i = Some a /\ a_settled a = false
                     /\ fst (step (AttemptRejected i name message) s)
                        = fst (withAttempts
                                 (replace_nth i (mkAttempt (a_run a) (a_connecting a) true)
                                              (attempts s)) s)).
    { unfold step, settle.
      destruct (nth_error (attempts s) i) as [a | ] eqn:Hnth; [ | left; reflexivity].
      destruct (a_settled a) eqn:Hs; [left; reflexivity | ].
      right. exists a. split; [reflexivity | split; [exact Hs | ]].
      unfold seq, withAttempts, onConnectError. cbn [fst snd aborted].
      destruct (nth (a_run a) (aborted s) false); reflexivity. }
    destruct Hst as [-> | (a & Hnth & Hs & ->)].
    + destruct (rejected_cases s i name' message' Hinv)
        as [(_ & a & Hnth & Hs & Hc & _) | (E' & _)]; [ | exact E'].
      exfalso. exact (Hno a Hnth Hs Hc).
    + unfold step, settle, withAttempts. cbn [fst attempts].
      rewrite (nth_error_replace_nth _ _ _ _ Hnth). reflexivity.
Qed.

Lemma connect_error_reported_for_current_run_only_witness :
  let s1 := fst (step OnStartGame (mount false 0 0 "disconnected")) in
  let s2 := fst (step (Emitted Disconnected "" "") s1) in
  snd (step (AttemptRejected 0 "ConnectionError" "could not establish pc connection") s1)
    = [connect_error_toast "ConnectionError" "could not establish pc connection"]
  /\ snd (step (AttemptRejected 0 "ConnectionError" "could not establish pc connection") s2)
     = [].
Proof.
  intros s1 s2. split; [reflexivity | ].
  destruct (connect_error_reported_for_current_run_only
              s2 0 "ConnectionError" "could not establish pc connection")
    as ([H | H] & Hrun & _).
  - apply reach_step, reach_step, reach_mount.
  - exact H.
  - exfalso. destruct Hrun as (_ & Hss & _); [rewrite H; discriminate | ].
    vm_compute in Hss. discriminate.
Defined.

(** X13.  At any moment at most one connection attempt can still raise the
    error toast: two attempts whose rejection would be reported are the same
    attempt. *)
Theorem at_most_one_attempt_reports :
  forall (s : State) (i j : nat) (n1 m1 n2 m2 : string),
    reachable s ->
    snd (step (AttemptRejected i n1 m1) s) <> [] ->
    snd (step (AttemptRejected j n2 m2) s) <> [] ->
    i = j.
Proof.
  intros s i j n1 m1 n2 m2 Hr Hi Hj.
  pose proof (reachable_settled s Hr) as Hinv.
  destruct (rejected_cases s i n1 m1 Hinv) as [(_ & a & Ha & _ & Hca & _) | (E & _)];
    [ | congruence].
  destruct (rejected_cases s j n2 m2 Hinv) as [(_ & b & Hb & _ & Hcb & _) | (E & _)];
    [ | congruence].
  destruct Hinv as ((_ & _ & _ & Hnd) & _).
  apply (proj1 (NoDup_nth_error (map a_run (attempts s))) Hnd).
  - rewrite length_map. apply nth_error_Some. congruence.
  - rewrite !nth_error_map, Ha, Hb. simpl. congruence.
Qed.

Lemma at_most_one_attempt_reports_witness :
  let s1 := fst (step OnStartGame (mount false 0 0 "disconnected")) in
  let s2 := fst (step (Emitted Disconnected "" "") s1) in
  let s := fst (step OnStartGame s2) in
  snd (step (AttemptRejected 0 "ConnectionError" "timeout") s) = []
  /\ snd (step (AttemptRejected 1 "ConnectionError" "timeout") s) <> []
  /\ 1 = 1.
Proof.
  intros s1 s2 s.
  assert (H1 : snd (step (AttemptRejected 1 "ConnectionError" "timeout") s) <> [])
    by (vm_compute; discriminate).
  split; [reflexivity | split; [exact H1 | ]].
  exact (at_most_one_attempt_reports
           s 1 1 "ConnectionError" "timeout" "ConnectionError" "timeout"
           (reach_step _ _ (reach_step _ _ (reach_step _ _ (reach_mount _ _ _ _))))
           H1 H1).
Defined.

(** X14.  When the room emits [Disconnected] during a session, the
    handler ends the session and asks for fresh connection details, and
    the cleanup of the connect effect calls [room.disconnect()]: exactly
    these two calls.  The welcome view is enabled again, audio stays
    started, no connection attempt begins, and from then on no pending
    attempt of the ended session can raise the error toast. *)
Theorem room_disconnected_ends_session :
  forall (s : State) (name message : string) (i : nat) (n m : string),
    reachable s ->
    mounted s = true ->
    sessionStarted s = true ->
    let r := step (Emitted Disconnected name message) s in
    snd r = [RefreshConnectionDetails (refreshConnectionDetails s); RoomDisconnect]
    /\ sessionStarted (fst r) = false
    /\ welcomeDisabled (fst r) = false
    /\ audioStarted (fst r) = true
    /\ attempts (fst r) = attempts s
    /\ snd (step (AttemptRejected i n m) (fst r)) = [].
Proof.
  intros s name message i n m Hr Hm Hs. cbv zeta.
  pose proof (reachable_settled s Hr) as (_ & Hcur & Hli & _ & Haud).
  pose proof (reachable_settled _ (reach_step s (Emitted Disconnected name message) Hr))
    as Hinv'.
  assert (E : step (Emitted Disconnected name message) s
              = (committed (deps_of s)
                   (rendered false (audioStarted s) (isPreConnectBufferEnabled s)
                             (refreshConnectionDetails s)
                             (existingOrRefreshConnectionDetails s) s),
                 [RefreshConnectionDetails (refreshConnectionDetails s); RoomDisconnect])).
  { rewrite (step_handled (Emitted Disconnected name message) s
               (rendered false (audioStarted s) (isPreConnectBufferEnabled s)
                         (refreshConnectionDetails s)
                         (existingOrRefreshConnectionDetails s) s)
               [RefreshConnectionDetails (refreshConnectionDetails s)]
               Hm (Hli Hm) eq_refl).
    f_equal.
    unfold commit_log, listen_changed, connect_changed, connect_starts, rendered, deps_of.
    cbn [d_refresh d_sessionStarted d_preConnect d_details refreshConnectionDetails
         sessionStarted isPreConnectBufferEnabled existingOrRefreshConnectionDetails current].
    rewrite Nat.eqb_refl, Hs.
    destruct (current s); [reflexivity | exfalso; apply (Hcur Hm); reflexivity]. }
  rewrite E in *. cbn [fst snd] in *.
  assert (Hcc : connect_changed (deps_of s)
                  (rendered false (audioStarted s) (isPreConnectBufferEnabled s)
                            (refreshConnectionDetails s)
                            (existingOrRefreshConnectionDetails s) s) = true).
  { unfold connect_changed, rendered, deps_of. simpl. rewrite Hs. reflexivity. }
  split; [reflexivity | ].
  split; [reflexivity | ].
  split; [reflexivity | ].
  split; [exact (Haud Hs) | ].
  split.
  - unfold committed. rewrite Hcc. reflexivity.
  - destruct (rejected_cases _ i n m Hinv') as [(_ & a & Ha & _ & Hc & _) | (E' & _)];
      [ | exact E'].
    destruct Hinv' as (_ & _ & _ & Hatt & _).
    specialize (Hatt a (nth_error_In _ _ Ha) Hc). discriminate.
Qed.

Lemma room_disconnected_ends_session_witness :
  let s := fst (step OnStartGame (mount true 3 4 "disconnected")) in
  let r := step (Emitted Disconnected "" "") s in
  snd r = [RefreshConnectionDetails 3; RoomDisconnect]
  /\ sessionStarted (fst r) = false
  /\ snd (step (AttemptRejected 0 "ConnectionError" "timeout") (fst r)) = [].
Proof.
  intros s r.
  destruct (room_disconnected_ends_session s "" "" 0 "ConnectionError" "timeout")
    as (H1 & H2 & _ & _ & _ & H6).
  - apply reach_step, reach_mount.
  - reflexivity.
  - reflexivity.
  - split; [exact H1 | split; [exact H2 | exact H6]].
Defined.

Lemma handled_prefix ev s s1 pre :
  handled ev s = Some (s1, pre) ->
  pre = [] \/ exists fn, pre = [RefreshConnectionDetails fn].
Proof.
  intros Hh.
  destruct ev as [ | | [ | ] name message | st | p rf df | i u t | i n m | i | ];
    try discriminate; injection Hh as <- <-; eauto.
Qed.

(** X15.  An event starts at most one connection attempt, and only in a
    step after which the session is started and [room.state] reads
    disconnected; in that step [room.disconnect()] (the cleanup of the
    previous run of the effect) is called before the microphone is enabled
    and the connection details are asked for, which come last.  In every
    other step the microphone is not touched. *)
Theorem connection_attempt_follows_disconnect :
  forall (s : State) (ev : Event),
    reachable s ->
    let s' := fst (step ev s) in
    let acts := snd (step ev s) in
    (length (attempts s') = length (attempts s)
     /\ forall e p, ~ In (SetMicrophoneEnabled e p) acts)
    \/ (length (attempts s') = S (length (attempts s))
        /\ sessionStarted s' = true
        /\ roomState s' = "disconnected"
        /\ exists before between,
             acts = before ++ RoomDisconnect :: between
                    ++ [SetMicrophoneEnabled true (isPreConnectBufferEnabled s');
                        ExistingOrRefreshConnectionDetails
                          (existingOrRefreshConnectionDetails s')]).
Proof.
  intros s ev Hr. cbv zeta.
  pose proof (reachable_settled s Hr) as (_ & Hcur & Hli & _ & _).
  destruct (handled ev s) as [[s1 pre] | ] eqn:Hh.
  - destruct (mounted s) eqn:Hm.
    + specialize (Hcur eq_refl). specialize (Hli eq_refl).
      rewrite (step_handled ev s s1 pre Hm Hli Hh). cbn [fst snd].
      pose proof (handled_prefix ev s s1 pre Hh) as Hpre.
      destruct (handled_rendered ev s s1 pre Hh) as (ss & au & p & rf & df & -> & _).
      set (s1 := rendered ss au p rf df s) in *.
      destruct (current s) as [run | ] eqn:Hc; [clear Hcur | congruence].
      assert (Hc1 : current s1 = Some run) by exact Hc.
      unfold committed, commit_log. rewrite Hc1.
      cbn [attempts sessionStarted roomState isPreConnectBufferEnabled
           existingOrRefreshConnectionDetails].
      destruct (connect_changed (deps_of s) s1) eqn:Hcc; cbn [andb].
      * destruct (connect_starts s1) eqn:Hst.
        -- right. unfold connect_starts in Hst. apply andb_true_iff in Hst as [Hss Hrs].
           apply String.eqb_eq in Hrs.
           split; [rewrite length_app; simpl; change (attempts s1) with (attempts s); lia | ].
           split; [exact Hss | split; [exact Hrs | ]].
           exists (pre ++ (if listen_changed (deps_of s) s1
                           then [RoomOff Disconnected; RoomOff MediaDevicesError] else [])),
                  (if listen_changed (deps_of s) s1
                   then [RoomOn MediaDevicesError; RoomOn Disconnected] else []).
           rewrite <- !app_assoc. reflexivity.
        -- left. split; [reflexivity | ]. intros e q Hin.
           destruct Hpre as [-> | [fn ->]];
             destruct (listen_changed (deps_of s) s1); simpl in Hin;
             intuition discriminate.
      * left. split; [reflexivity | ]. intros e q Hin.
        destruct Hpre as [-> | [fn ->]];
          destruct (listen_changed (deps_of s) s1); simpl in Hin;
          intuition discriminate.
    + left. destruct ev as [ | | [ | ] name message | st | p rf df | i u t | i n m | i | ];
        try discriminate; unfold step; rewrite Hm; (split; [reflexivity | intros e q []]).
  - left.
    destruct ev as [ | | [ | ] name message | st | p rf df | i u t | i n m | i | ];
      try discriminate; unfold step.
    + destruct (mounted s); [ | split; [reflexivity | intros e q []]].
      destruct (listener s); (split; [reflexivity | ]); intros e q Hin; simpl in Hin;
        intuition discriminate.
    + split; [reflexivity | intros e q []].
    + unfold settle. destruct (nth_error (attempts s) i) as [a | ];
        [ | split; [reflexivity | intros e q []]].
      destruct (a_connecting a); [split; [reflexivity | intros e q []] | ].
      unfold seq, withAttempts, emit. cbn [fst snd attempts app].
      split; [apply replace_nth_length | ].
      intros e q Hin; simpl in Hin; intuition discriminate.
    + unfold settle. destruct (nth_error (attempts s) i) as [a | ];
        [ | split; [reflexivity | intros e q []]].
      destruct (a_settled a); [split; [reflexivity | intros e q []] | ].
      unfold seq, withAttempts, onConnectError. cbn [fst snd attempts aborted app].
      destruct (nth (a_run a) (aborted s) false); cbn [fst snd attempts];
        (split; [apply replace_nth_length | ]);
        intros e q Hin; simpl in Hin; intuition discriminate.
    + unfold settle. destruct (nth_error (attempts s) i) as [a | ];
        [ | split; [reflexivity | intros e q []]].
      destruct (a_connecting a && negb (a_settled a));
        [ | split; [reflexivity | intros e q []]].
      unfold withAttempts. cbn [fst snd attempts].
      split; [apply replace_nth_length | intros e q []].
    + destruct (mounted s); [ | split; [reflexivity | intros e q []]].
      unfold seq, listenCleanup, connectCleanup, unmounted. cbn [current].
      destruct (current s); cbn [fst snd attempts];
        (split; [reflexivity | ]); intros e q Hin; simpl in Hin; intuition discriminate.
Qed.

Lemma connection_attempt_follows_disconnect_witness :
  let s := mount true 3 4 "disconnected" in
  snd (step OnStartGame s)
    = [RoomDisconnect; SetMicrophoneEnabled true true; ExistingOrRefreshConnectionDetails 4]
  /\ (forall e p, ~ In (SetMicrophoneEnabled e p) (snd (step (Render true 3 5) s))).
Proof.
  intros s. split; [reflexivity | ].
  destruct (connection_attempt_follows_disconnect s (Render true 3 5)
              (reach_mount true 3 4 "disconnected")) as [[_ H] | (H & _)].
  - exact H.
  - vm_compute in H. discriminate.
Defined.

Lemma app_step_mounted e s :
  reachable s ->
  mounted (fst (step e s)) = match e with Unmount => false | _ => mounted s end.
Proof.
  intros Hr. destruct (mounted s) eqn:Hm.
  - destruct (handled e s) as [[s1 pre] | ] eqn:Hh.
    + destruct (reachable_settled s Hr) as (_ & _ & Hli & _).
      rewrite (step_handled e s s1 pre Hm (Hli Hm) Hh).
      destruct (handled_rendered e s s1 pre Hh) as (ss & au & q & rf & df & -> & _).
      destruct e as [ | | [ | ] n m | st | q' rf' df' | i u t | i n m | i | ];
        try discriminate; exact Hm.
    + destruct e as [ | | [ | ] n m | st | q' rf' df' | i u t | i n m | i | ];
        try discriminate; unfold step; rewrite ?Hm.
      * destruct (listener s); exact Hm.
      * exact Hm.
      * unfold settle. destruct (nth_error _ i) as [a | ]; [ | exact Hm].
        destruct (a_connecting a); exact Hm.
      * unfold settle. destruct (nth_error _ i) as [a | ]; [ | exact Hm].
        destruct (a_settled a); [exact Hm | ].
        unfold seq, withAttempts, onConnectError. simpl.
        destruct (nth _ _ _); exact Hm.
      * unfold settle. destruct (nth_error _ i) as [a | ]; [ | exact Hm].
        destruct (_ && _); exact Hm.
      * unfold seq, listenCleanup, connectCleanup, unmounted. simpl.
        destruct (current s); reflexivity.
  - destruct e as [ | | [ | ] n m | st | q' rf' df' | i u t | i n m | i | ];
      unfold step; rewrite ?Hm; try reflexivity; try exact Hm.
    + unfold settle. destruct (nth_error _ i) as [a | ]; [ | exact Hm].
      destruct (a_connecting a); exact Hm.
    + unfold settle. destruct (nth_error _ i) as [a | ]; [ | exact Hm].
      destruct (a_settled a); [exact Hm | ].
      unfold seq, withAttempts, onConnectError. simpl.
      destruct (nth _ _ _); exact Hm.
    + unfold settle. destruct (nth_error _ i) as [a | ]; [ | exact Hm].
      destruct (_ && _); exact Hm.
Qed.

Lemma app_step_unmounted_session e s :
  mounted s = false \/ e = Unmount ->
  sessionStarted (fst (step e s)) = sessionStarted s.
Proof.
  intros [Hm | ->];
    [ | unfold step, seq, listenCleanup, connectCleanup, unmounted;
        destruct (mounted s); [ | reflexivity]; simpl;
        destruct (current s); reflexivity ].
  destruct e as [ | | [ | ] n m | st | q' rf' df' | i u t | i n m | i | ];
    unfold step; rewrite ?Hm; try reflexivity.
  - unfold settle. destruct (nth_error _ i) as [a | ]; [ | reflexivity].
    destruct (a_connecting a); reflexivity.
  - unfold settle. destruct (nth_error _ i) as [a | ]; [ | reflexivity].
    destruct (a_settled a); [reflexivity | ].
    unfold seq, withAttempts, onConnectError. simpl.
    destruct (nth _ _ _); reflexivity.
  - unfold settle. destruct (nth_error _ i) as [a | ]; [ | reflexivity].
    destruct (_ && _); reflexivity.
Qed.

End AppClaims.

(* ================================================================= *)
(** ** Properties of the shell with its session view *)

Section PageClaims.
Import Page.

Lemma step_in_step ev p : in_step p -> in_step (fst (step ev p)).
Proof.
  intros (Ha & Hv & Hm & Hs).
  destruct ev as [e | a | d]; cbn [step].
  - pose proof (App.reach_step (app p) e Ha) as Ha'.
    pose proof (app_step_mounted e (app p) Ha) as Hm'.
    pose proof (app_step_unmounted_session e (app p)) as Hs'.
    pose proof (SessionView.reach_step (view p)
                  (child_event e (fst (App.step e (app p)))) Hv) as Hv'.
    destruct (App.step e (app p)) as [a' acts]. cbn [fst] in *.
    pose proof (view_step_fields (child_event e a') (view p)) as Hf.
    destruct (SessionView.step (child_event e a') (view p)) as [v' vacts].
    cbn [fst] in *. unfold in_step. cbn [app view].
    split; [exact Ha' | split; [exact Hv' | ]].
    destruct (SessionView.mounted (view p)) eqn:Hmv.
    + destruct Hf as [Hf1 Hf2].
      destruct e; cbn [child_event] in Hf1, Hf2;
        try (split; congruence).
      split; [congruence | ]. rewrite Hf2, Hs' by (right; reflexivity). exact Hs.
    + assert (v' = view p) as ->
        by (destruct Hf as [Hf | [d Hf]]; [exact Hf | destruct e; discriminate]).
      split; [rewrite Hm'; destruct e; congruence | ].
      rewrite Hs' by (left; congruence). exact Hs.
  - pose proof (SessionView.reach_step (view p) (SessionView.AgentStateChanged a) Hv) as Hv'.
    pose proof (view_step_fields (SessionView.AgentStateChanged a) (view p)) as Hf.
    destruct (SessionView.step (SessionView.AgentStateChanged a) (view p)) as [v' vacts].
    cbn [fst] in *. unfold in_step. cbn [app view].
    split; [exact Ha | split; [exact Hv' | ]].
    destruct (SessionView.mounted (view p)) eqn:Hmv.
    + destruct Hf as [Hf1 Hf2]. split; congruence.
    + destruct Hf as [-> | [d Hf]]; [split; congruence | discriminate].
  - pose proof (SessionView.reach_step (view p) (SessionView.Advance d) Hv) as Hv'.
    unfold in_step. cbn [SessionView.step SessionView.advance fst app view] in *.
    split; [exact Ha | split; [exact Hv' | split; assumption]].
Qed.

Lemma mount_in_step pre rf df st a t0 : in_step (mount pre rf df st a t0).
Proof.
  unfold in_step, mount. cbn [app view].
  split; [apply App.reach_mount | split; [apply SessionView.reach_mount | ]].
  split; reflexivity.
Qed.

Lemma reachable_in_step p : reachable p -> in_step p.
Proof.
  induction 1 as [pre rf df st a t0 | p ev _ IH].
  - apply mount_in_step.
  - apply step_in_step, IH.
Qed.

Lemma page_quiet evs : forall p,
  SessionView.timer_tracks_render (view p) ->
  SessionView.mounted (view p) = false \/ SessionView.sessionStarted (view p) = false ->
  forallb (fun ev => negb (is_AppEvent ev)) evs = true ->
  snd (snd (run evs p)) = [].
Proof.
  induction evs as [ | ev evs IH]; intros p Hinv Hq Hevs; [reflexivity | ].
  simpl in Hevs. apply andb_true_iff in Hevs as [Hev Hevs].
  destruct ev as [e | a | d]; [discriminate | | ].
  - pose proof (step_quiet (SessionView.AgentStateChanged a) (view p) Hinv) as Hstep.
    pose proof (step_tracks (SessionView.AgentStateChanged a) (view p) Hinv) as Hinv1.
    cbn [run step].
    destruct (SessionView.step (SessionView.AgentStateChanged a) (view p)) as [v1 a1].
    cbn [fst snd] in Hstep, Hinv1.
    destruct Hstep as (-> & _ & Hm1 & Hs1);
      [destruct Hq as [Hq | Hq]; [left; exact Hq | right; split; [exact Hq | reflexivity]] | ].
    specialize (IH (mkPage (app p) v1) Hinv1).
    destruct (run evs (mkPage (app p) v1)) as [p2 [l2 v2]]. cbn [snd app] in *.
    apply IH; [ | exact Hevs]. cbn [view].
    destruct (SessionView.mounted v1) eqn:Hmv; [right; apply Hs1; reflexivity | left; reflexivity].
  - pose proof (step_quiet (SessionView.Advance d) (view p) Hinv) as Hstep.
    pose proof (step_tracks (SessionView.Advance d) (view p) Hinv) as Hinv1.
    cbn [run step].
    destruct (SessionView.step (SessionView.Advance d) (view p)) as [v1 a1].
    cbn [fst snd] in Hstep, Hinv1.
    destruct Hstep as (-> & _ & Hm1 & Hs1);
      [destruct Hq as [Hq | Hq]; [left; exact Hq | right; split; [exact Hq | reflexivity]] | ].
    specialize (IH (mkPage (app p) v1) Hinv1).
    destruct (run evs (mkPage (app p) v1)) as [p2 [l2 v2]]. cbn [snd app] in *.
    apply IH; [ | exact Hevs]. cbn [view].
    destruct (SessionView.mounted v1) eqn:Hmv; [right; apply Hs1; reflexivity | left; reflexivity].
Qed.

Lemma app_start_sets_session s :
  App.reachable s -> App.mounted s = true ->
  App.sessionStarted (fst (App.step App.OnStartGame s)) = true.
Proof.
  intros Hr Hm. destruct (reachable_settled s Hr) as (_ & _ & Hli & _).
  rewrite (step_handled App.OnStartGame s _ _ Hm (Hli Hm) eq_refl). reflexivity.
Qed.

Lemma app_disconnected_clears_session s name message :
  App.reachable s -> App.mounted s = true ->
  App.sessionStarted (fst (App.step (App.Emitted App.Disconnected name message) s)) = false.
Proof.
  intros Hr Hm. destruct (reachable_settled s Hr) as (_ & _ & Hli & _).
  rewrite (step_handled (App.Emitted App.Disconnected name message) s _ _ Hm (Hli Hm) eq_refl).
  reflexivity.
Qed.

(** X16.  The click on START PRACTICING, in the welcome state, starts
    the session and makes the session view arm exactly one liveness
    timeout: none was pending before, and the new one closes over the
    agent state of that moment and is due 20 000 ms later. *)
Theorem start_click_arms_liveness_timeout :
  forall p : State,
    reachable p ->
    App.mounted (app p) = true ->
    App.sessionStarted (app p) = false ->
    let r := step (AppEvent App.OnStartGame) p in
    SessionView.timers (view p) = []
    /\ App.sessionStarted (app (fst r)) = true
    /\ snd (snd r)
       = [SessionView.SetTimeout (SessionView.nextId (view p)) SessionView.LIVENESS_DELAY]
    /\ SessionView.timers (view (fst r))
       = [SessionView.mkTimer (SessionView.nextId (view p))
                              (SessionView.now (view p) + SessionView.LIVENESS_DELAY)%N
                              (SessionView.agentState (view p))].
Proof.
  intros p Hr Hm Hs. cbv zeta.
  destruct (reachable_in_step p Hr) as (Ha & Hv & Hmv & Hsv).
  pose proof (reachable_tracks (view p) Hv) as Hinv.
  pose proof (app_start_sets_session (app p) Ha Hm) as Hs'.
  cbn [step]. destruct (App.step App.OnStartGame (app p)) as [a' acts]. cbn [fst] in Hs'.
  cbn [child_event]. rewrite Hs'.
  rewrite (step_session_start (view p) Hinv) by congruence.
  cbn [fst snd app view]. unfold SessionView.rearmed. cbn [SessionView.timers].
  split; [ | auto].
  destruct Hinv as [[Ht _] | (t & _ & _ & _ & Hst & _)]; [exact Ht | congruence].
Qed.

Lemma start_click_arms_liveness_timeout_witness :
  let p := mount false 0 0 "disconnected" "disconnected" 0 in
  let r := step (AppEvent App.OnStartGame) p in
  snd (snd r) = [SessionView.SetTimeout 0 20000]
  /\ SessionView.timers (view (fst r)) = [SessionView.mkTimer 0 20000 "disconnected"].
Proof.
  intros p r.
  destruct (start_click_arms_liveness_timeout p (reach_mount _ _ _ _ _ _) eq_refl eq_refl)
    as (_ & _ & H3 & H4).
  split; [exact H3 | exact H4].
Defined.

(** X17.  When the room emits [Disconnected], whatever the reason, the
    session ends and the session view clears its liveness timeout: no
    timeout is pending afterwards, and as long as only time passes and the
    agent state changes, the view does nothing (no toast, no forced
    disconnect, no new timeout). *)
Theorem room_disconnected_cancels_liveness_timeout :
  forall (p : State) (name message : string) (evs : list Event),
    reachable p ->
    App.mounted (app p) = true ->
    forallb (fun ev => negb (is_AppEvent ev)) evs = true ->
    let p' := fst (step (AppEvent (App.Emitted App.Disconnected name message)) p) in
    App.sessionStarted (app p') = false
    /\ SessionView.timers (view p') = []
    /\ snd (snd (run evs p')) = [].
Proof.
  intros p name message evs Hr Hm Hevs. cbv zeta.
  pose proof (reachable_in_step _
                (reach_step p (AppEvent (App.Emitted App.Disconnected name message)) Hr))
    as (_ & Hv' & _ & Hsv').
  destruct (reachable_in_step p Hr) as (Ha & _).
  pose proof (app_disconnected_clears_session (app p) name message Ha Hm) as Hs'.
  set (p' := fst (step (AppEvent (App.Emitted App.Disconnected name message)) p)) in *.
  assert (Hsa : App.sessionStarted (app p') = false).
  { unfold p'. cbn [step].
    destruct (App.step (App.Emitted App.Disconnected name message) (app p)) as [a' acts].
    destruct (SessionView.step _ (view p)) as [v' vacts]. exact Hs'. }
  pose proof (reachable_tracks (view p') Hv') as Hinv.
  split; [exact Hsa | split].
  - destruct Hinv as [[Ht _] | (t & _ & _ & _ & Hst & _)]; [exact Ht | congruence].
  - apply page_quiet; [exact Hinv | right; congruence | exact Hevs].
Qed.

Lemma room_disconnected_cancels_liveness_timeout_witness :
  let p := fst (step (AppEvent App.OnStartGame)
                     (mount false 0 0 "disconnected" "connecting" 0)) in
  let p' := fst (step (AppEvent (App.Emitted App.Disconnected "" "")) p) in
  SessionView.timers (view p) = [SessionView.mkTimer 0 20000 "connecting"]
  /\ SessionView.timers (view p') = []
  /\ snd (snd (run [Advance 30000; AgentStateChanged "initializing"; Advance 30000] p')) = [].
Proof.
  intros p p'. split; [reflexivity | ].
  destruct (room_disconnected_cancels_liveness_timeout
              p "" "" [Advance 30000; AgentStateChanged "initializing"; Advance 30000]
              (reach_step _ _ (reach_mount _ _ _ _ _ _)) eq_refl eq_refl)
    as (_ & H2 & H3).
  split; [exact H2 | exact H3].
Defined.

End PageClaims.

(* ================================================================= *)
(** ** Properties of the verification script *)

Section VerifyScriptClaims.
Import VerifyScript.
Local Open Scope Z_scope.

Lemma wrap64_small z : - 2 ^ 63 <= z < 2 ^ 63 -> wrap64 z = z.
Proof.
  intros Hz. unfold wrap64. rewrite Z.mod_small by lia. lia.
Qed.

Lemma filter_length_forallb {A} (f : A -> bool) (l : list A) :
  length (filter f l) = length l <-> forallb f l = true.
Proof.
  induction l as [ | x l IH]; simpl; [tauto | ].
  pose proof (filter_length_le f l) as Hle.
  destruct (f x); simpl.
  - rewrite <- IH. split; intros H; [injection H as H; exact H | f_equal; exact H].
  - split; [intros H; exfalso; lia | discriminate].
Qed.

Lemma checked_paths_length cs : (length (checked_paths cs) <= length cs)%nat.
Proof.
  induction cs as [ | c cs IH]; simpl; [lia | ].
  destruct (checked_path c); simpl; lia.
Qed.

Lemma checked_paths_cons c cs :
  checked_paths (c :: cs) = checked_paths [c] ++ checked_paths cs.
Proof. simpl. destruct (checked_path c); reflexivity. Qed.

Lemma report_is_result found directory path :
  is_result (report found directory path) = true.
Proof.
  unfold report, line_of. destruct (plain path), directory, found; reflexivity.
Qed.

(** One command: what it adds to the counters and to the result lines. *)
Lemma exec_one fs c sh :
  0 <= passed sh <= total sh ->
  total sh + 1 < 2 ^ 63 ->
  total (exec fs c sh) = total sh + Z.of_nat (length (checked_paths [c]))
  /\ passed (exec fs c sh)
     = passed sh + Z.of_nat (length (filter (present fs) (checked_paths [c])))
  /\ filter is_result (out (exec fs c sh))
     = filter is_result (out sh) ++ map (result_line fs) (checked_paths [c]).
Proof.
  intros Hp Hb.
  destruct c as [s | path | path]; cbn [exec checked_paths checked_path].
  - unfold echo. cbn [total passed out filter map length].
    rewrite filter_app. cbn [filter is_result]. rewrite !Z.add_0_r, !app_nil_r. auto.
  - unfold check_file, echo, result_line, present. cbn [total passed out fst snd filter map].
    unfold present. cbn [fst snd].
    rewrite (wrap64_small (total sh + 1)) by lia.
    destruct (is_file fs path); cbn [total passed out length];
      rewrite ?(wrap64_small (passed sh + 1)) by lia;
      rewrite filter_app; cbn [filter]; rewrite report_is_result; repeat split; lia.
  - unfold check_directory, echo, result_line, present.
    cbn [total passed out fst snd filter map].
    unfold present. cbn [fst snd].
    rewrite (wrap64_small (total sh + 1)) by lia.
    destruct (is_directory fs path); cbn [total passed out length];
      rewrite ?(wrap64_small (passed sh + 1)) by lia;
      rewrite filter_app; cbn [filter]; rewrite report_is_result; repeat split; lia.
Qed.

(** Counters and result lines over a whole list of commands. *)
Lemma exec_all_counts :
  forall (fs : FileSystem) (cs : list Command) (sh : Shell),
    0 <= passed sh <= total sh ->
    total sh + Z.of_nat (length cs) < 2 ^ 63 ->
    let sh' := exec_all fs cs sh in
    total sh' = total sh + Z.of_nat (length (checked_paths cs))
    /\ passed sh' = passed sh + Z.of_nat (length (filter (present fs) (checked_paths cs)))
    /\ 0 <= passed sh' <= total sh'
    /\ filter is_result (out sh')
       = filter is_result (out sh) ++ map (result_line fs) (checked_paths cs).
Proof.
  intros fs cs. unfold exec_all.
  induction cs as [ | c cs IH]; intros sh Hp Hb.
  - simpl. rewrite !Z.add_0_r, app_nil_r. auto.
  - cbn [length] in Hb. rewrite Nat2Z.inj_succ in Hb.
    destruct (exec_one fs c sh Hp) as (S1 & S2 & S3); [lia | ].
    pose proof (filter_length_le (present fs) (checked_paths [c])) as Hle.
    assert (Hone : (length (checked_paths [c]) <= 1)%nat)
      by (simpl; destruct (checked_path c); simpl; lia).
    cbn [fold_left].
    destruct (IH (exec fs c sh)) as (H1 & H2 & H3 & H4); [lia | lia | ].
    rewrite checked_paths_cons, filter_app, map_app, !length_app, !Nat2Z.inj_add.
    rewrite H1, H2, H4, S1, S2, S3, <- app_assoc.
    repeat split; lia.
Qed.

(** X18.  For any list of checks (short enough for 64-bit counters),
    [check_file] and [check_directory] count every check in [total] and
    every path found with the right kind in [passed], so that
    [passed <= total] throughout, and they call [echo -e] exactly once per
    check, in order.  For a path without backslash and without newline
    what that call writes is exactly one line, [Found] or [Missing] with
    the path (for a path with a backslash [echo -e] expands the escapes,
    and the output need not be one line). *)
Theorem checks_count_and_report :
  forall (fs : FileSystem) (cs : list Command) (sh : Shell),
    0 <= passed sh <= total sh ->
    total sh + Z.of_nat (length cs) < 2 ^ 63 ->
    let sh' := exec_all fs cs sh in
    total sh' = total sh + Z.of_nat (length (checked_paths cs))
    /\ passed sh' = passed sh + Z.of_nat (length (filter (present fs) (checked_paths cs)))
    /\ 0 <= passed sh' <= total sh'
    /\ filter is_result (out sh')
       = filter is_result (out sh) ++ map (result_line fs) (checked_paths cs)
    /\ (forall p, In p (checked_paths cs) ->
          plain (fst p) = true ->
          result_line fs p = line_of (present fs p) (snd p) (fst p))
    /\ (forallb (fun p => plain (fst p)) (checked_paths cs) = true ->
          filter is_result (out sh')
          = filter is_result (out sh)
            ++ map (fun p => line_of (present fs p) (snd p) (fst p)) (checked_paths cs)).
Proof.
  intros fs cs sh Hp Hb. cbv zeta.
  destruct (exec_all_counts fs cs sh Hp Hb) as (H1 & H2 & H3 & H4).
  assert (Hplain : forall p, plain (fst p) = true ->
            result_line fs p = line_of (present fs p) (snd p) (fst p)).
  { intros p Hpl. unfold result_line, report. rewrite Hpl. reflexivity. }
  split; [exact H1 | split; [exact H2 | split; [exact H3 | split; [exact H4 | split]]]].
  - intros p _ Hpl. apply Hplain, Hpl.
  - intros Hall. rewrite H4. f_equal. apply map_ext_in.
    intros p Hin. apply Hplain.
    rewrite forallb_forall in Hall. apply (Hall p Hin).
Qed.

Lemma checks_count_and_report_witness :
  let fs := files_only ["CLAUDE.md"] in
  let cs := [CheckFile "CLAUDE.md"; CheckDirectory "CLAUDE.md"; CheckFile "x"] in
  let sh' := exec_all fs cs (mkShell 0 0 []) in
  total sh' = 3 /\ passed sh' = 1
  /\ filter is_result (out sh')
     = [Found "CLAUDE.md"; MissingDirectory "CLAUDE.md"; Missing "x"].
Proof.
  intros fs cs sh'.
  destruct (checks_count_and_report fs cs (mkShell 0 0 []))
    as (H1 & H2 & _ & _ & _ & H6).
  - simpl. lia.
  - simpl. lia.
  - split; [exact H1 | split; [exact H2 | ]].
    exact (H6 eq_refl).
Defined.

(** X19.  On every file system the script runs its 16 file checks and
    exits with status 0 or 1: 0 exactly when each of the 16 paths is a
    regular file.  The summary line reports [passed] (the number of paths
    found) and [total] = 16, [passed <= total], the last line says the same
    as the exit status, and [check_directory] is never called. *)
Theorem script_exits_zero_iff_all_files_present :
  forall fs : FileSystem,
    let code := fst (main fs) in
    let sh := snd (main fs) in
    (code = 0 <-> forall path, In (path, false) (checked_paths checks) -> is_file fs path = true)
    /\ (code = 0 \/ code = 1)
    /\ total sh = 16
    /\ passed sh = Z.of_nat (length (filter (present fs) (checked_paths checks)))
    /\ 0 <= passed sh <= 16
    /\ In (Summary (passed sh) 16) (out sh)
    /\ last (out sh) (Text "") = (if code =? 0 then AllVerified else SomeMissing)
    /\ (forall path, ~ In (path, true) (checked_paths checks)).
Proof.
  intros fs. cbv zeta.
  destruct (exec_all_counts fs checks (mkShell 0 0 [])) as (H1 & H2 & H3 & _);
    [simpl; lia | simpl; lia | ].
  cbn [total passed] in H1, H2, H3.
  change (Z.of_nat (length (checked_paths checks))) with 16 in H1.
  rewrite Z.add_0_l in H1, H2.
  unfold main. cbn [echo total passed out].
  set (sh0 := exec_all fs checks (mkShell 0 0 [])) in *.
  assert (Hall : passed sh0 = total sh0 <->
                 forall path, In (path, false) (checked_paths checks) -> is_file fs path = true).
  { rewrite H1, H2.
    change 16 with (Z.of_nat (length (checked_paths checks))).
    rewrite Nat2Z.inj_iff, filter_length_forallb, forallb_forall.
    split.
    - intros H path Hin. apply (H _ Hin).
    - intros H [path dir] Hin.
      assert (dir = false) as ->
        by (simpl in Hin; repeat (destruct Hin as [[= _ <-] | Hin]; [reflexivity | ]);
            destruct Hin).
      apply (H path Hin). }
  destruct (Z.eqb_spec (passed sh0) (total sh0)) as [Heq | Hne]; cbn [fst snd echo total passed out].
  - split; [split; [intros _; apply Hall, Heq | reflexivity] | ].
    split; [left; reflexivity | ].
    split; [exact H1 | split; [exact H2 | split; [lia | ]]].
    split; [rewrite <- H1, !in_app_iff; simpl; tauto | ].
    split; [rewrite last_last; reflexivity | ].
    intros path Hin. simpl in Hin.
    repeat (destruct Hin as [Hin | Hin]; [discriminate | ]). destruct Hin.
  - split; [split; [discriminate | intros H; apply Hall in H; contradiction] | ].
    split; [right; reflexivity | ].
    split; [exact H1 | split; [exact H2 | split; [lia | ]]].
    split; [rewrite <- H1, !in_app_iff; simpl; tauto | ].
    split; [rewrite last_last; reflexivity | ].
    intros path Hin. simpl in Hin.
    repeat (destruct Hin as [Hin | Hin]; [discriminate | ]). destruct Hin.
Qed.

Lemma script_exits_zero_iff_all_files_present_witness :
  fst (main (files_only (map fst (checked_paths checks)))) = 0.
Proof.
  apply (proj1 (script_exits_zero_iff_all_files_present
                  (files_only (map fst (checked_paths checks))))).
  intros path Hin. simpl in Hin.
  repeat (destruct Hin as [[= <-] | Hin]; [reflexivity | ]). destruct Hin.
Defined.

End VerifyScriptClaims.
